(** * Particle transition engine and interaction signals

    A shallow embedding of the simulation core of the holiday-tree display:
    the damped transition and its smoothstep easing, the cone generators,
    the ambient dust spring, the photo focus/hover pass, the gesture
    derivation of [HandController] and the mode poll of [App].

    JavaScript numbers are modelled as the real numbers [R] (rounding, NaN
    and the infinities are left out); [Math.random()] is an explicit
    argument ranging over [[0,1)]; React state set with a [setX] call is
    taken to be in force at the next tick. *)

From Stdlib Require Import Reals Lra Lia List Bool ZArith Arith.
Import ListNotations.

Local Open Scope R_scope.

(** ** types.ts *)

Inductive TreeState : Type := CHAOS | FORMED.

Definition TreeState_eqb (a b : TreeState) : bool :=
  match a, b with
  | CHAOS, CHAOS | FORMED, FORMED => true
  | _, _ => false
  end.

(** [InteractionRef]: the mutable object shared by producer and consumers. *)
Record InteractionRef : Type := mkInteractionRef {
  rotationVelocity : R;
  zoomVelocity : R;
  triggerFocus : bool;
  targetMode : option TreeState
}.

Definition set_rotationVelocity (v : R) (ir : InteractionRef) :=
  mkInteractionRef v (zoomVelocity ir) (triggerFocus ir) (targetMode ir).
Definition set_zoomVelocity (v : R) (ir : InteractionRef) :=
  mkInteractionRef (rotationVelocity ir) v (triggerFocus ir) (targetMode ir).
Definition set_triggerFocus (b : bool) (ir : InteractionRef) :=
  mkInteractionRef (rotationVelocity ir) (zoomVelocity ir) b (targetMode ir).
Definition set_targetMode (m : option TreeState) (ir : InteractionRef) :=
  mkInteractionRef (rotationVelocity ir) (zoomVelocity ir) (triggerFocus ir) m.

(** [Vector3] of three.js, as far as the code reads and writes it. *)
Record Vector3 : Type := mkVector3 { vx : R; vy : R; vz : R }.

(** ** MathUtils of three.js *)

Module MathUtils.

(** [lerp(x, y, t)] of three.js: [(1 - t) * x + t * y]. *)
Definition lerp (x y t : R) : R := (1 - t) * x + t * y.

(** Modelled from the spec: [MathUtils.damp] is a function of the three.js
    package, whose source is not part of the repository; section 4.3 gives
    the update as [progress <- target - (target - progress) * exp(-rate * dt)]. *)
Definition damp (x y lambda dt : R) : R := y - (y - x) * exp (- lambda * dt).

End MathUtils.

(** ** The transition controller (LuxuryTree and ArixTree useFrame) *)

(** [const target = treeState === TreeState.FORMED ? 1 : 0]. *)
Definition target_of (treeState : TreeState) : R :=
  match treeState with FORMED => 1 | CHAOS => 0 end.

(** [progress.current = MathUtils.damp(progress.current, target, 2.5, delta)]. *)
Definition transition_step (treeState : TreeState) (delta progress : R) : R :=
  MathUtils.damp progress (target_of treeState) 2.5 delta.

(** The factor by which one such frame shrinks the distance to the target. *)
Definition decay (lambda delta : R) : R := exp (- lambda * delta).

(** The progress value after [n] frames of the same [delta]. *)
Fixpoint progress_after (treeState : TreeState) (delta p0 : R) (n : nat) : R :=
  match n with
  | O => p0
  | S k => transition_step treeState delta (progress_after treeState delta p0 k)
  end.

(** [const easeT = t * t * (3 - 2 * t)]. *)
Definition easeT (t : R) : R := t * t * (3 - 2 * t).

(** [new Vector3().lerpVectors(v1, v2, alpha)]. *)
Definition lerpVectors (v1 v2 : Vector3) (alpha : R) : Vector3 :=
  mkVector3 (vx v1 + (vx v2 - vx v1) * alpha)
            (vy v1 + (vy v2 - vy v1) * alpha)
            (vz v1 + (vz v2 - vz v1) * alpha).

(** Horizontal distance of a point from the vertical axis. *)
Definition radial (p : Vector3) : R := sqrt (vx p * vx p + vz p * vz p).

(** [Vector3.length()]. *)
Definition vlength (p : Vector3) : R :=
  sqrt (vx p * vx p + vy p * vy p + vz p * vz p).

(** [Vector3.lerp(v, alpha)]: [this.x += (v.x - this.x) * alpha], and so
    on for [y] and [z]. *)
Definition Vector3_lerp (this v : Vector3) (alpha : R) : Vector3 :=
  mkVector3 (vx this + (vx v - vx this) * alpha)
            (vy this + (vy v - vy this) * alpha)
            (vz this + (vz v - vz this) * alpha).

(** [Math.cbrt]: the real cube root. *)
Definition cbrt (x : R) : R :=
  match total_order_T x 0 with
  | inleft (left _) => - Rpower (- x) (/ 3)
  | inleft (right _) => 0
  | inright _ => Rpower x (/ 3)
  end.

(** [x > y] and [x < y] as the booleans JavaScript computes. *)
Definition Rgtb (x y : R) : bool := if Rgt_dec x y then true else false.
Definition Rltb (x y : R) : bool := if Rlt_dec x y then true else false.

(** ** The stream of [Math.random()] draws

    A computation that draws from a stream [src] starting at position [n]
    and returns its value with the next position. *)

Module Rand.

Definition t (A : Type) : Type := (nat -> R) -> nat -> A * nat.

Definition ret {A : Type} (a : A) : t A := fun _ n => (a, n).

Definition bind {A B : Type} (m : t A) (k : A -> t B) : t B :=
  fun src n => let '(a, n') := m src n in k a src n'.

(** One call of [Math.random()]. *)
Definition draw : t R := fun src n => (src n, S n).

End Rand.

Notation "x <- m ;; k" := (Rand.bind m (fun x => k))
  (at level 61, m at next level, right associativity).

(** Every draw of the stream lies in [[0,1)]. *)
Definition unit_stream (src : nat -> R) : Prop := forall n, 0 <= src n < 1.

(** ** Spatial generators *)

(** [randomInSphere(radius)], the same text in Experience.tsx and
    HandController.tsx; [u], [v], [w] are its three draws in call order. *)
Definition randomInSphere (radius : R) (u v w : R) : Vector3 :=
  let theta := 2 * PI * u in
  let phi := acos (2 * v - 1) in
  let r := cbrt w * radius in
  let x := r * sin phi * cos theta in
  let y := r * sin phi * sin theta in
  let z := r * cos phi in
  mkVector3 x y z.

Module ArixTree.

(** [randomInCone(height, maxRadius, yOffset)] of HandController.tsx; [u1]
    and [u2] are the two [Math.random()] draws in call order. *)
Definition randomInCone (height maxRadius yOffset : R) (u1 u2 : R) : Vector3 :=
  let y := u1 * height in
  let r := (1 - y / height) * maxRadius in
  let theta := u2 * PI * 2 in
  let spiral := y * 5 in
  let x := r * cos (theta + spiral) in
  let z := r * sin (theta + spiral) in
  mkVector3 x (y - yOffset) z.

(** Tree position of an ornament, lines 275-281 of the ornaments loop;
    [u1], [u2], [u3] are the draws for [y], [r] and [theta]. *)
Definition ornament_treePos (u1 u2 u3 : R) : Vector3 :=
  let y := u1 * 6.5 in
  let maxR := (1 - y / 7) * 2.5 in
  let r := u2 * (maxR * 0.2) + maxR * 0.8 in
  let theta := u3 * PI * 2 in
  let x := r * cos theta in
  let z := r * sin theta in
  mkVector3 x (y - 3.5) z.

End ArixTree.

Module LuxuryTree.

Definition PHOTO_COUNT : Z := 20.

(** [randomInCone(height, maxRadius, yOffset, surfaceOnly)] of
    Experience.tsx; [u1], [u2], [u3] are the three [Math.random()] draws in
    call order (either branch of the conditional draws exactly one). *)
Definition randomInCone (height maxRadius yOffset : R) (surfaceOnly : bool)
    (u1 u2 u3 : R) : Vector3 :=
  let y := u1 * height in
  let rRadius := (1 - y / height) * maxRadius in
  let r := if surfaceOnly then rRadius * (0.85 + u2 * 0.15)
           else sqrt u2 * rRadius in
  let theta := u3 * PI * 2 in
  let spiral := y * 10 in
  let x := r * cos (theta + spiral) in
  let z := r * sin (theta + spiral) in
  mkVector3 x (y - yOffset) z.

(** *** Focus toggle at the head of useFrame *)

(** [number | null] ids; [i === focusId] on such values. *)
Definition id_eqb (a b : option Z) : bool :=
  match a, b with
  | Some x, Some y => Z.eqb x y
  | None, None => true
  | _, _ => false
  end.

(** Lines 308-315: [u] is the [Math.random()] draw of this tick.  The
    result is the focus id in force at the next tick and the signal
    object after the tick. *)
Definition focus_tick (u : R) (focusId : option Z) (ir : InteractionRef)
    : option Z * InteractionRef :=
  if triggerFocus ir then
    (match focusId with
     | None => Some (Int_part (u * IZR PHOTO_COUNT))
     | Some _ => None
     end,
     set_triggerFocus false ir)
  else (focusId, ir).

(** What happens to the shared flag and the focus state over time: the
    producer asserts the flag, the render loop ticks. *)
Inductive FocusEvent : Type :=
| Assert_trigger
| Render (u : R).

Record FocusState : Type := mkFocusState {
  focusId : option Z;
  shared : InteractionRef
}.

Definition focus_event (e : FocusEvent) (s : FocusState) : FocusState :=
  match e with
  | Assert_trigger => mkFocusState (focusId s) (set_triggerFocus true (shared s))
  | Render u =>
      let '(f, ir) := focus_tick u (focusId s) (shared s) in mkFocusState f ir
  end.

Definition is_focused (s : FocusState) : bool :=
  match focusId s with Some _ => true | None => false end.

(** Whether event [e] flips the focus state between null and non-null. *)
Definition toggles (e : FocusEvent) (s : FocusState) : bool :=
  negb (Bool.eqb (is_focused s) (is_focused (focus_event e s))).

Fixpoint focus_run (tr : list FocusEvent) (s : FocusState) : FocusState :=
  match tr with
  | [] => s
  | e :: tr' => focus_run tr' (focus_event e s)
  end.

Fixpoint toggle_count (tr : list FocusEvent) (s : FocusState) : nat :=
  match tr with
  | [] => O
  | e :: tr' =>
      ((if toggles e s then 1 else 0) + toggle_count tr' (focus_event e s))%nat
  end.

Definition is_assert (e : FocusEvent) : bool :=
  match e with Assert_trigger => true | Render _ => false end.

Definition assert_count (tr : list FocusEvent) : nat :=
  length (filter is_assert tr).

(** *** Photos, frames and the hover outline *)

(** The fields of [ParticleData] that the frame update reads. *)
Record ParticleData : Type := mkParticleData {
  id : Z;
  scatterPosition : Vector3;
  treePosition : Vector3;
  scale : R;
  speed : R;
  phase : R
}.

(** Orientation of an [Object3D], kept symbolically: the calls that built
    it, innermost first. *)
Inductive Orientation : Type :=
| Initial_orientation
| Euler_set (x y z : R)
| Look_at (eye target : Vector3)
| Rotate_Y (angle : R) (o : Orientation).

(** A composed local matrix: position, orientation and uniform scale. *)
Record Matrix4 : Type := mkMatrix4 {
  m_position : Vector3;
  m_orientation : Orientation;
  m_scale : R
}.

Record Object3D : Type := mkObject3D {
  position : Vector3;
  orientation : Orientation;
  oscale : R;
  matrix : Matrix4;
  visible : bool
}.

Definition updateMatrix (o : Object3D) : Object3D :=
  mkObject3D (position o) (orientation o) (oscale o)
             (mkMatrix4 (position o) (orientation o) (oscale o)) (visible o).

Definition set_position (p : Vector3) (o : Object3D) : Object3D :=
  mkObject3D p (orientation o) (oscale o) (matrix o) (visible o).

Definition setScalar (k : R) (o : Object3D) : Object3D :=
  mkObject3D (position o) (orientation o) k (matrix o) (visible o).

Definition set_visible (b : bool) (o : Object3D) : Object3D :=
  mkObject3D (position o) (orientation o) (oscale o) (matrix o) b.

(** [Object3D.lookAt(x, y, z)] of three.js refreshes the object's matrices
    and then points the object from its position at the target. *)
Definition lookAt (target : Vector3) (o : Object3D) : Object3D :=
  let o1 := updateMatrix o in
  mkObject3D (position o1) (Look_at (position o1) target) (oscale o1)
             (matrix o1) (visible o1).

Definition rotateY (angle : R) (o : Object3D) : Object3D :=
  mkObject3D (position o) (Rotate_Y angle (orientation o)) (oscale o)
             (matrix o) (visible o).

(** Result of a piece of the frame callback: a value, or the TypeError
    raised by reading a property of [undefined]. *)
Inductive Outcome (A : Type) : Type :=
| Done (a : A)
| TypeError.
Arguments Done {A} a.
Arguments TypeError {A}.

(** [photos[k]] for a [number] index: [undefined] outside the array. *)
Definition photo_at (photos : list ParticleData) (k : Z) : option ParticleData :=
  if (k <? 0)%Z then None else nth_error photos (Z.to_nat k).

(** Body of [photos.forEach((p, i) => ...)], lines 400-415: the shared
    [dummy] after the iteration and the matrix written to instance [i] of
    both the photo and the frame mesh. *)
Definition photo_body (easeT : R) (focusId hoveredId : option Z)
    (dummy : Object3D) (p : ParticleData) (i : nat) : Object3D * Matrix4 :=
  if id_eqb (Some (Z.of_nat i)) focusId then
    let d := setScalar 0 dummy in (d, matrix d)
  else
    let curPos := lerpVectors (scatterPosition p) (treePosition p) easeT in
    let d := set_position curPos dummy in
    let d := lookAt (mkVector3 0 (vy curPos) 0) d in
    let d := rotateY PI d in
    let scale0 := scale p in
    let scale1 :=
      if id_eqb (Some (Z.of_nat i)) hoveredId
         && negb (id_eqb hoveredId None)
      then scale0 * 1.15 else scale0 in
    let d := setScalar scale1 d in
    let d := updateMatrix d in
    (d, matrix d).

(** The [forEach] from index [i] on. *)
Fixpoint photos_from (easeT : R) (focusId hoveredId : option Z)
    (dummy : Object3D) (i : nat) (ps : list ParticleData)
    : Object3D * list Matrix4 :=
  match ps with
  | [] => (dummy, [])
  | p :: ps' =>
      let '(d, m) := photo_body easeT focusId hoveredId dummy p i in
      let '(d', ms) := photos_from easeT focusId hoveredId d (S i) ps' in
      (d', m :: ms)
  end.

(** Lines 398-419 with both instanced meshes mounted. *)
Definition photos_update (easeT : R) (focusId hoveredId : option Z)
    (dummy : Object3D) (photos : list ParticleData) : Object3D * list Matrix4 :=
  photos_from easeT focusId hoveredId dummy O photos.

(** Lines 430-441; [hoverMesh] is [hoverMeshRef.current], [None] while the
    outline is not mounted. *)
Definition hover_update (easeT : R) (focusId hoveredId : option Z)
    (photos : list ParticleData) (hoverMesh : option Object3D)
    : Outcome (option Object3D) :=
  match hoverMesh with
  | None => Done None
  | Some hm =>
      match hoveredId with
      | Some h =>
          if negb (id_eqb hoveredId focusId) then
            match photo_at photos h with
            | None => TypeError
            | Some p =>
                let curPos :=
                  lerpVectors (scatterPosition p) (treePosition p) easeT in
                let m := set_position curPos hm in
                let m := lookAt (mkVector3 0 (vy curPos) 0) m in
                let m := rotateY PI m in
                let m := setScalar (scale p * 1.25) m in
                Done (Some (set_visible true m))
            end
          else Done (Some (set_visible false hm))
      | None => Done (Some (set_visible false hm))
      end
  end.

(** An id that names no photo. *)
Definition out_of_range (k : Z) : Prop := (k < 0 \/ PHOTO_COUNT <= k)%Z.

(** A sample photo group of [PHOTO_COUNT] entries and a sample mesh. *)
Definition sample_photo : ParticleData :=
  mkParticleData 0 (mkVector3 1 2 3) (mkVector3 0 1 0) 0.4 0.1 0.

Definition sample_photos : list ParticleData := repeat sample_photo 20.

Definition sample_mesh : Object3D :=
  mkObject3D (mkVector3 0 0 0) Initial_orientation 1
             (mkMatrix4 (mkVector3 0 0 0) Initial_orientation 1) false.

(** *** Balls and the focus visual *)

(** [dummy.rotation.set(x, y, z)]. *)
Definition rotation_set (x y z : R) (o : Object3D) : Object3D :=
  mkObject3D (position o) (Euler_set x y z) (oscale o) (matrix o) (visible o).

(** A [forEach] over a particle group that shares one [dummy]: the dummy
    after the loop and the matrix written to each instance in turn. *)
Fixpoint forEach_instance (body : Object3D -> ParticleData -> Object3D * Matrix4)
    (dummy : Object3D) (ps : list ParticleData) : Object3D * list Matrix4 :=
  match ps with
  | [] => (dummy, [])
  | p :: ps' =>
      let '(d, m) := body dummy p in
      let '(d', ms) := forEach_instance body d ps' in
      (d', m :: ms)
  end.

(** Body of [balls.forEach], lines 348-354. *)
Definition ball_body (easeT time : R) (dummy : Object3D) (p : ParticleData)
    : Object3D * Matrix4 :=
  let curPos := lerpVectors (scatterPosition p) (treePosition p) easeT in
  let curPos := mkVector3 (vx curPos)
                          (vy curPos + sin (time * 1.5 + phase p) * 0.02)
                          (vz curPos) in
  let d := set_position curPos dummy in
  let d := setScalar (scale p) d in
  let d := rotation_set 0 0 0 d in
  let d := updateMatrix d in
  (d, matrix d).

(** Lines 422-428; [focusMesh] is [focusMeshRef.current].  The group's
    scale, uniform from its creation on, is kept as one number. *)
Definition focus_mesh_update (time delta : R) (focusId : option Z)
    (focusMesh : option Object3D) : option Object3D :=
  match focusId, focusMesh with
  | Some _, Some m =>
      let targetPos := mkVector3 0 1.5 11 in
      let m := set_position (Vector3_lerp (position m) targetPos (delta * 4)) m in
      let m := lookAt (mkVector3 0 2 14) m in
      let m := setScalar (oscale m + (3.5 - oscale m) * (delta * 4)) m in
      let m := set_position
                 (mkVector3 (vx (position m))
                            (vy (position m) + sin time * 0.005)
                            (vz (position m))) m in
      Some m
  | _, _ => focusMesh
  end.

(** *** Data generation for hats, socks and photos *)

Definition HAT_COUNT : nat := 40.
Definition SOCK_COUNT : nat := 40.

Definition randomInCone_draws (height maxRadius yOffset : R) (surfaceOnly : bool)
    : Rand.t Vector3 :=
  u1 <- Rand.draw ;; u2 <- Rand.draw ;; u3 <- Rand.draw ;;
  Rand.ret (randomInCone height maxRadius yOffset surfaceOnly u1 u2 u3).

Definition randomInSphere_draws (radius : R) : Rand.t Vector3 :=
  u <- Rand.draw ;; v <- Rand.draw ;; w <- Rand.draw ;;
  Rand.ret (randomInSphere radius u v w).

(** The object literal pushed by the hat, sock and photo loops (lines
    231-241, 247-257, 263-273): a surface point of the cone, a scatter
    point, fixed [scale] and [speed], a drawn [phase]. *)
Definition decoration (height maxRadius yOffset sphere scale0 speed0 : R)
    (i : nat) : Rand.t ParticleData :=
  treePos <- randomInCone_draws height maxRadius yOffset true ;;
  scatterPos <- randomInSphere_draws sphere ;;
  u <- Rand.draw ;;
  Rand.ret (mkParticleData (Z.of_nat i) scatterPos treePos scale0 speed0 (u * PI)).

(** [for (let i = i0; i < i0 + count; i++) data.push(item(i))]. *)
Fixpoint push_loop (item : nat -> Rand.t ParticleData) (i count : nat)
    : Rand.t (list ParticleData) :=
  match count with
  | O => Rand.ret []
  | S k =>
      p <- item i ;; ps <- push_loop item (S i) k ;; Rand.ret (p :: ps)
  end.

Definition hats : Rand.t (list ParticleData) :=
  push_loop (decoration 8 3.5 4.0 10 0.25 0.2) 0 HAT_COUNT.

Definition socks : Rand.t (list ParticleData) :=
  push_loop (decoration 7 3.2 3.5 10 0.2 0.25) 0 SOCK_COUNT.

Definition photos : Rand.t (list ParticleData) :=
  push_loop (decoration 8 3.5 4.2 8 0.4 0.1) 0 (Z.to_nat PHOTO_COUNT).

(** What the loops above promise of the particle pushed at index [j]. *)
Definition decoration_ok (height maxRadius yOffset sphere scale0 speed0 : R)
    (j : nat) (p : ParticleData) : Prop :=
  let y := vy (treePosition p) + yOffset in
  let bound := maxRadius * (1 - y / height) in
  id p = Z.of_nat j
  /\ scale p = scale0
  /\ speed p = speed0
  /\ 0 <= phase p < PI
  /\ vlength (scatterPosition p) <= sphere
  /\ 0 <= y < height
  /\ 0.85 * bound <= radial (treePosition p) <= bound.

(** The matrix a photo that is not focused receives. *)
Definition photo_matrix (easeT : R) (hovered : bool) (p : ParticleData) : Matrix4 :=
  let curPos := lerpVectors (scatterPosition p) (treePosition p) easeT in
  mkMatrix4 curPos
            (Rotate_Y PI (Look_at curPos (mkVector3 0 (vy curPos) 0)))
            (if hovered then scale p * 1.15 else scale p).

(** One assertion followed by one render tick, for each draw of [us]. *)
Definition pulses (us : list R) : list FocusEvent :=
  flat_map (fun u => [Assert_trigger; Render u]) us.

End LuxuryTree.

(** ** ArixTree: ornaments and dust in the frame callback *)

Module ArixTreeFrame.

Import LuxuryTree.

(** Body of [ornaments.forEach], lines 386-395. *)
Definition ornament_body (easeT time : R) (dummy : Object3D) (p : ParticleData)
    : Object3D * Matrix4 :=
  let curPos := lerpVectors (scatterPosition p) (treePosition p) easeT in
  let curPos := mkVector3 (vx curPos)
                          (vy curPos + sin (time * 2 + phase p) * 0.05)
                          (vz curPos) in
  let d := set_position curPos dummy in
  let d := setScalar (scale p * (0.8 + 0.2 * sin (time * 3 + IZR (id p)))) d in
  let d := rotation_set 0 0 0 d in
  let d := updateMatrix d in
  (d, matrix d).

(** Body of [dust.forEach], lines 402-415. *)
Definition dust_body (easeT time : R) (dummy : Object3D) (p : ParticleData)
    : Object3D * Matrix4 :=
  let curPos := lerpVectors (scatterPosition p) (treePosition p) easeT in
  let curPos := mkVector3 (vx curPos + sin (time * 0.5 + phase p) * 0.5)
                          (vy curPos + cos (time * 0.3 + phase p) * 0.5)
                          (vz curPos + sin (time * 0.4 + phase p * 2) * 0.5) in
  let d := set_position curPos dummy in
  let d := setScalar (scale p * (1 + sin (time * 10 + phase p))) d in
  let d := rotation_set 0 0 0 d in
  let d := updateMatrix d in
  (d, matrix d).

End ArixTreeFrame.

(** ** Experience: the camera zoom *)

Module Experience.

(** Lines 21-33; [camera] is the position of [cameraRef.current], [None]
    while the camera is not mounted. *)
Definition zoom_step (zoomVel delta : R) (camera : option Vector3)
    : option Vector3 :=
  match camera with
  | None => None
  | Some pos =>
      if Rgtb (Rabs zoomVel) 0.001 then
        let vec := mkVector3 0 0 0 in
        let dist := vlength pos in
        if (Rgtb dist 5 && Rgtb zoomVel 0) || (Rltb dist 20 && Rltb zoomVel 0)
        then Some (Vector3_lerp pos vec (zoomVel * delta * 5))
        else Some pos
      else Some pos
  end.

End Experience.

(** ** AmbientSystem: the gold dust spring *)

Module AmbientSystem.

(** One iteration of the dust loop (lines 137-171) for a particle at [p]
    with its [speed] and [phase].  Besides the new position the result
    lists, in order, every divisor the iteration divided by. *)
Definition dust_particle (treeState : TreeState) (delta time : R)
    (speed phase : R) (p : Vector3) : Vector3 * list R :=
  let isFormed := TreeState_eqb treeState FORMED in
  let px := vx p in
  let py := vy p in
  let pz := vz p in
  let r2 := px * px + py * py + pz * pz in
  let r := sqrt r2 in
  let angleSpeed := 0.2 * speed in
  let cos_ := cos (angleSpeed * delta) in
  let sin_ := sin (angleSpeed * delta) in
  let nx := px * cos_ - pz * sin_ in
  let nz := px * sin_ + pz * cos_ in
  let ny := py + sin (time + phase) * 0.01 in
  let targetR := if isFormed then 6.0 else 14.0 in
  let force := (targetR - r) * 0.5 * delta in
  if Rlt_dec 0.1 r then
    (mkVector3 (nx + (nx / r) * force)
               (ny + (ny / r) * force * 0.1)
               (nz + (nz / r) * force),
     [r; r; r])
  else (mkVector3 nx ny nz, []).

(** The position the iteration reaches when the force step is left out:
    rotation about the vertical axis and the vertical jitter only. *)
Definition dust_drift (delta time : R) (speed phase : R) (p : Vector3) : Vector3 :=
  let angleSpeed := 0.2 * speed in
  let cos_ := cos (angleSpeed * delta) in
  let sin_ := sin (angleSpeed * delta) in
  mkVector3 (vx p * cos_ - vz p * sin_)
            (vy p + sin (time + phase) * 0.01)
            (vx p * sin_ + vz p * cos_).

(** Current radius of a particle, [Math.sqrt(px*px + py*py + pz*pz)]. *)
Definition radius (p : Vector3) : R :=
  sqrt (vx p * vx p + vy p * vy p + vz p * vz p).

Record Dust : Type := mkDust { d_pos : Vector3; d_speed : R; d_phase : R }.

(** The whole loop over the dust array: new positions and all divisors. *)
Fixpoint dust_frame (treeState : TreeState) (delta time : R) (ds : list Dust)
    : list Dust * list R :=
  match ds with
  | [] => ([], [])
  | d :: ds' =>
      let '(q, divs) :=
        dust_particle treeState delta time (d_speed d) (d_phase d) (d_pos d) in
      let '(rest, divs') := dust_frame treeState delta time ds' in
      (mkDust q (d_speed d) (d_phase d) :: rest, divs ++ divs')
  end.

(** One iteration of the dust set-up loop, lines 74-84; [u1] .. [u5] are
    its draws in call order. *)
Definition dust_init (u1 u2 u3 u4 u5 : R) : Dust :=
  let r := 15 * cbrt u1 in
  let theta := u2 * PI * 2 in
  let phi := acos (2 * u3 - 1) in
  mkDust (mkVector3 (r * sin phi * cos theta)
                    (r * sin phi * sin theta)
                    (r * cos phi))
         (u4 * 0.2 + 0.1)
         (u5 * PI * 2).

(** The three numbers pushed for index [i] of the golden spiral, lines
    113-119. *)
Definition spiral_point (i : nat) : Vector3 :=
  let count := 300 in
  let t := INR i / count in
  let angle := t * PI * 12 in
  let radius := 5 * (1 - t) + 1.0 in
  let y := t * 10 - 5 in
  mkVector3 (cos angle * radius) y (sin angle * radius).

(** [spiralPoints], the flat array of lines 110-121. *)
Definition spiralPoints : list R :=
  flat_map (fun i => let p := spiral_point i in [vx p; vy p; vz p])
           (seq 0 300).

(** [const targetR = isFormed ? 6.0 : 14.0]. *)
Definition targetR (treeState : TreeState) : R :=
  if TreeState_eqb treeState FORMED then 6.0 else 14.0.

End AmbientSystem.

(** ** HandController: gesture derivation *)

Module HandController.

(** A normalized landmark; only [x] and [y] are read. *)
Record Landmark : Type := mkLandmark { lx : R; ly : R }.

(** The landmarks of one detected hand, by MediaPipe index (0 the wrist,
    4, 8, 12, 16, 20 the finger tips). *)
Definition Landmarks : Type := nat -> Landmark.

(** [Math.hypot(a, b)]. *)
Definition hypot (a b : R) : R := sqrt (a * a + b * b).

(** Mean tip-to-wrist distance, lines 87-91. *)
Definition avgDist (landmarks : Landmarks) : R :=
  let wrist := landmarks 0%nat in
  let tips := map landmarks [4; 8; 12; 16; 20]%nat in
  fold_left
    (fun acc tip => acc + hypot (lx tip - lx wrist) (ly tip - ly wrist))
    tips 0 / 5.

(** Thumb tip to index tip, lines 104-106. *)
Definition pinchDist (landmarks : Landmarks) : R :=
  let thumbTip := landmarks 4%nat in
  let indexTip := landmarks 8%nat in
  hypot (lx thumbTip - lx indexTip) (ly thumbTip - ly indexTip).

Definition pinchThreshold : R := 0.05.

(** Lines 95-101. *)
Definition classify (avg : R) : option TreeState :=
  if Rlt_dec avg 0.2 then Some FORMED
  else if Rgt_dec avg 0.4 then Some CHAOS
  else None.

(** The gesture refs of the component. *)
Record GestureRefs : Type := mkGestureRefs {
  lastPinchTime : R;
  pinchCount : nat;
  isPinching : bool
}.

Definition initial_refs : GestureRefs := mkGestureRefs 0 0 false.

Definition initial_signal : InteractionRef := mkInteractionRef 0 0 false None.

(** What the pinch code did while it ran, in order: a pinch start with the
    value [pinchCount] took right after lines 115-119, and the assignment
    [triggerFocus = true]. *)
Inductive GestureEvent : Type :=
| Pinch_started (count : nat)
| Focus_triggered.

Record State : Type := mkState {
  refs : GestureRefs;
  signal : InteractionRef;
  log : list GestureEvent
}.

(** Lines 113-125: a pinch that has just started at clock reading [now]. *)
Definition pinch_start (now : R) (s : State) : State :=
  let g := refs s in
  let count := if Rlt_dec (now - lastPinchTime g) 500
               then S (pinchCount g) else 1%nat in
  let lg := log s ++ [Pinch_started count] in
  if Nat.eqb count 2 then
    mkState (mkGestureRefs now 0 true) (set_triggerFocus true (signal s))
            (lg ++ [Focus_triggered])
  else
    mkState (mkGestureRefs now count true) (signal s) lg.

(** Lines 110-132. *)
Definition pinch_logic (landmarks : Landmarks) (now : R) (s : State) : State :=
  if Rlt_dec (pinchDist landmarks) pinchThreshold then
    let s1 := if isPinching (refs s) then s else pinch_start now s in
    mkState (refs s1)
            (set_rotationVelocity ((lx (landmarks 0%nat) - 0.5) * 0.1) (signal s1))
            (log s1)
  else
    mkState (mkGestureRefs (lastPinchTime (refs s)) (pinchCount (refs s)) false)
            (set_rotationVelocity 0 (signal s))
            (log s).

(** Lines 138-140. *)
Definition zoom_logic (landmarks : Landmarks) (s : State) : State :=
  let y := ly (landmarks 0%nat) in
  let z := if Rlt_dec y 0.3 then 0.05
           else if Rgt_dec y 0.7 then -0.05 else 0 in
  mkState (refs s) (set_zoomVelocity z (signal s)) (log s).

(** One detected hand: its landmarks and what [performance.now()] reads
    while it is processed. *)
Record Hand : Type := mkHand { landmarks : Landmarks; now : R }.

(** Body of [results.landmarks.forEach], lines 83-140. *)
Definition process_hand (s : State) (h : Hand) : State :=
  let s1 := mkState (refs s)
                    (set_targetMode (classify (avgDist (landmarks h))) (signal s))
                    (log s) in
  let s2 := pinch_logic (landmarks h) (now h) s1 in
  zoom_logic (landmarks h) s2.

(** One run of [predict] past its guards (lines 70-147) on the hands the
    detector returned for the frame. *)
Definition predict (hands : list Hand) (s : State) : State :=
  match hands with
  | [] =>
      mkState (refs s)
              (set_zoomVelocity 0 (set_rotationVelocity 0 (signal s)))
              (log s)
  | _ :: _ => fold_left process_hand hands s
  end.

Fixpoint run (frames : list (list Hand)) (s : State) : State :=
  match frames with
  | [] => s
  | f :: fs => run fs (predict f s)
  end.

Definition is_trigger (e : GestureEvent) : bool :=
  match e with Focus_triggered => true | Pinch_started _ => false end.

(** How many times [triggerFocus = true] was executed. *)
Definition trigger_count (s : State) : nat := length (filter is_trigger (log s)).

(** The hand holds thumb tip and index tip closer than the threshold. *)
Definition pinching (h : Hand) : Prop := pinchDist (landmarks h) < pinchThreshold.

Definition initial_state : State := mkState initial_refs initial_signal [].

(** Sample hands: every landmark at one point (a closed, pinching hand),
    and a spread hand whose tips all lie 0.5 from the wrist. *)
Definition closed_hand : Landmarks := fun _ => mkLandmark 0.5 0.5.

Definition open_hand : Landmarks := fun i =>
  match i with
  | 0%nat => mkLandmark 0.5 0.5
  | 4%nat => mkLandmark 0 0.5
  | 8%nat => mkLandmark 1 0.5
  | _ => mkLandmark 0.5 0
  end.

End HandController.

(** ** App: the mode poll and the toggle button *)

Module App.

(** Body of the interval callback, lines 84-87: the committed mode after
    the poll. *)
Definition poll (treeState : TreeState) (ir : InteractionRef) : TreeState :=
  match targetMode ir with
  | Some target =>
      if negb (TreeState_eqb target treeState) then target else treeState
  | None => treeState
  end.

(** Whether the poll reaches [setTreeState(target)]. *)
Definition poll_commits (treeState : TreeState) (ir : InteractionRef) : bool :=
  match targetMode ir with
  | Some target => negb (TreeState_eqb target treeState)
  | None => false
  end.

Definition toggleState (prev : TreeState) : TreeState :=
  match prev with FORMED => CHAOS | CHAOS => FORMED end.

(** The producer overwrites [targetMode]; the interval fires. *)
Inductive ModeEvent : Type :=
| Overwrite_target (m : option TreeState)
| Poll.

Record ModeState : Type := mkModeState {
  treeState : TreeState;
  interaction : InteractionRef
}.

Definition mode_event (e : ModeEvent) (s : ModeState) : ModeState :=
  match e with
  | Overwrite_target m => mkModeState (treeState s) (set_targetMode m (interaction s))
  | Poll => mkModeState (poll (treeState s) (interaction s)) (interaction s)
  end.

Definition commits (e : ModeEvent) (s : ModeState) : bool :=
  match e with
  | Overwrite_target _ => false
  | Poll => poll_commits (treeState s) (interaction s)
  end.

Fixpoint commit_count (tr : list ModeEvent) (s : ModeState) : nat :=
  match tr with
  | [] => O
  | e :: tr' =>
      ((if commits e s then 1 else 0) + commit_count tr' (mode_event e s))%nat
  end.

Definition is_poll (e : ModeEvent) : bool :=
  match e with Poll => true | Overwrite_target _ => false end.

Definition poll_count (tr : list ModeEvent) : nat := length (filter is_poll tr).

End App.

(** * Properties *)

(** ** Damped transition *)

(** The update of section 4.3 is three.js's [lerp] towards the target by
    [1 - exp(-lambda * dt)]. *)
Lemma damp_as_lerp (x y lambda dt : R) :
  MathUtils.damp x y lambda dt
  = MathUtils.lerp x y (1 - exp (- lambda * dt)).
Proof. unfold MathUtils.damp, MathUtils.lerp. ring. Qed.

Section Damping.

Variable treeState : TreeState.
Variable delta : R.
Hypothesis delta_pos : 0 < delta.

Lemma decay_pos : 0 < decay 2.5 delta.
Proof. apply exp_pos. Qed.

Lemma decay_lt_1 : decay 2.5 delta < 1.
Proof.
  unfold decay. rewrite <- exp_0. apply exp_increasing. lra.
Qed.

Lemma transition_step_gap (p : R) :
  target_of treeState - transition_step treeState delta p
  = (target_of treeState - p) * decay 2.5 delta.
Proof. unfold transition_step, MathUtils.damp, decay. ring. Qed.

Lemma progress_gap (p0 : R) (n : nat) :
  target_of treeState - progress_after treeState delta p0 n
  = (target_of treeState - p0) * decay 2.5 delta ^ n.
Proof.
  induction n as [|n IH]; simpl.
  - ring.
  - rewrite transition_step_gap, IH. ring.
Qed.

Lemma target_unit : 0 <= target_of treeState <= 1.
Proof. destruct treeState; simpl; lra. Qed.

Lemma transition_step_between (p : R) :
  Rmin p (target_of treeState) <= transition_step treeState delta p
  <= Rmax p (target_of treeState).
Proof.
  pose proof decay_pos. pose proof decay_lt_1.
  pose proof (transition_step_gap p) as G.
  unfold Rmin, Rmax. destruct (Rle_dec p (target_of treeState)); nra.
Qed.

Lemma transition_step_unit (p : R) :
  0 <= p <= 1 -> 0 <= transition_step treeState delta p <= 1.
Proof.
  intros Hp. pose proof target_unit as Ht.
  pose proof (transition_step_between p) as [Hlo Hhi].
  unfold Rmin, Rmax in *. destruct (Rle_dec p (target_of treeState)); lra.
Qed.

Lemma progress_unit (p0 : R) (n : nat) :
  0 <= p0 <= 1 -> 0 <= progress_after treeState delta p0 n <= 1.
Proof.
  intros Hp. induction n as [|n IH]; simpl; [lra|].
  now apply transition_step_unit.
Qed.

Lemma transition_step_closer (p : R) :
  Rabs (target_of treeState - transition_step treeState delta p)
  <= Rabs (target_of treeState - p).
Proof.
  rewrite transition_step_gap, Rabs_mult.
  pose proof decay_pos. pose proof decay_lt_1.
  rewrite (Rabs_pos_eq (decay 2.5 delta)) by lra.
  pose proof (Rabs_pos (target_of treeState - p)). nra.
Qed.

Lemma transition_step_strictly_closer (p : R) :
  p <> target_of treeState ->
  Rabs (target_of treeState - transition_step treeState delta p)
  < Rabs (target_of treeState - p).
Proof.
  intros Hne. rewrite transition_step_gap, Rabs_mult.
  pose proof decay_pos. pose proof decay_lt_1.
  rewrite (Rabs_pos_eq (decay 2.5 delta)) by lra.
  assert (0 < Rabs (target_of treeState - p)) by (apply Rabs_pos_lt; lra).
  nra.
Qed.

Lemma progress_converges (p0 eps : R) :
  0 <= p0 <= 1 -> 0 < eps ->
  exists N, forall n, (N <= n)%nat ->
    Rabs (target_of treeState - progress_after treeState delta p0 n) < eps.
Proof.
  intros Hp Heps.
  pose proof decay_pos. pose proof decay_lt_1.
  destruct (pow_lt_1_zero (decay 2.5 delta)) with (y := eps) as [N HN]; [|lra|].
  { rewrite Rabs_pos_eq; lra. }
  exists N. intros n Hn. rewrite progress_gap, Rabs_mult.
  specialize (HN n Hn).
  pose proof target_unit.
  assert (Rabs (target_of treeState - p0) <= 1)
    by (apply Rabs_le; lra).
  pose proof (Rabs_pos (target_of treeState - p0)).
  pose proof (Rabs_pos ((decay 2.5 delta) ^ n)). nra.
Qed.

End Damping.

Lemma exp_pow (x : R) (n : nat) : exp x ^ n = exp (INR n * x).
Proof.
  induction n as [|n IH].
  - simpl. rewrite Rmult_0_l, exp_0. reflexivity.
  - rewrite S_INR. simpl pow. rewrite IH, <- exp_plus. f_equal. ring.
Qed.

Lemma scenario_50_steps : 0.9 < progress_after FORMED 0.1 0 50.
Proof.
  pose proof (progress_gap FORMED 0.1 0 50) as G.
  unfold decay in G. simpl target_of in G. rewrite exp_pow in G.
  match type of G with context [exp ?a] =>
    assert (A : a = Ropp 12.5)
      by (change 50%nat with (Z.to_nat 50); rewrite INR_IZR_INZ; simpl; lra)
  end.
  rewrite A, exp_Ropp in G.
  assert (E : 13.5 < exp 12.5) by (pose proof (exp_ineq1 12.5); lra).
  assert (/ exp 12.5 < / 13.5) by (apply Rinv_lt_contravar; nra).
  lra.
Qed.

(** C1. Iterating the per-frame update
    [progress <- damp(progress, target, 2.5, dt)] with a fixed target in
    {0,1} and a fixed [dt > 0] from a progress in [[0,1]] moves progress
    monotonically towards the target, never past it, and arbitrarily close
    to it; from 0 with target 1 and [dt = 0.1] progress exceeds 0.9 after
    50 frames and is at most 1 at each of them. *)
Theorem damped_convergence :
  forall (treeState : TreeState) (dt p0 : R),
    0 < dt -> 0 <= p0 <= 1 ->
    let p := progress_after treeState dt p0 in
    let target := target_of treeState in
    (forall n, Rmin (p n) target <= p (S n) <= Rmax (p n) target)
    /\ (forall n, Rabs (target - p (S n)) <= Rabs (target - p n))
    /\ (forall n, p n <> target -> Rabs (target - p (S n)) < Rabs (target - p n))
    /\ (forall n, 0 <= p n <= 1)
    /\ (forall eps, 0 < eps ->
          exists N, forall n, (N <= n)%nat -> Rabs (target - p n) < eps)
    /\ 0.9 < progress_after FORMED 0.1 0 50
    /\ (forall k, (k <= 50)%nat -> progress_after FORMED 0.1 0 k <= 1).
Proof.
  intros ts dt p0 Hdt Hp p target. subst p target.
  repeat split.
  - apply transition_step_between; assumption.
  - apply transition_step_between; assumption.
  - intros n. apply transition_step_closer; assumption.
  - intros n Hn. simpl. apply transition_step_strictly_closer; assumption.
  - apply progress_unit; assumption.
  - apply progress_unit; assumption.
  - intros eps Heps. apply progress_converges; assumption.
  - exact scenario_50_steps.
  - intros k _. apply progress_unit; lra.
Qed.

Lemma damped_convergence_witness :
  0 < 0.1 /\ 0 <= 0 <= 1 /\
  0.9 < progress_after FORMED 0.1 0 50.
Proof.
  split; [lra|]. split; [lra|].
  exact (proj1 (proj2 (proj2 (proj2 (proj2 (proj2
    (damped_convergence FORMED 0.1 0 ltac:(lra) ltac:(lra)))))))).
Defined.

(** ** Easing *)

Lemma easeT_derivative (t : R) :
  derivable_pt_lim easeT t (6 * t * (1 - t)).
Proof.
  assert (D : derivable_pt_lim
            ((id * id) * (fct_cte 3 - mult_real_fct 2 id))%F t
            ((1 * id t + id t * 1) * (fct_cte 3 - mult_real_fct 2 id)%F t
             + (id * id)%F t * (0 - 2 * 1))).
  { apply derivable_pt_lim_mult.
    - apply derivable_pt_lim_mult; apply derivable_pt_lim_id.
    - apply derivable_pt_lim_minus.
      + apply derivable_pt_lim_const.
      + apply derivable_pt_lim_scal, derivable_pt_lim_id. }
  unfold mult_fct, minus_fct, fct_cte, mult_real_fct, id in D.
  replace (6 * t * (1 - t))
    with ((1 * t + t * 1) * (3 - 2 * t) + t * t * (0 - 2 * 1)) by ring.
  exact D.
Qed.

Lemma easeT_monotone (a b : R) :
  0 <= a -> a <= b -> b <= 1 -> easeT a <= easeT b.
Proof.
  intros Ha Hab Hb. unfold easeT.
  assert (K : 0 <= 3 * (a + b) - 2 * (a * a + a * b + b * b)) by nra.
  assert (P : 0 <= (b - a) * (3 * (a + b) - 2 * (a * a + a * b + b * b)))
    by (apply Rmult_le_pos; lra).
  lra.
Qed.

(** C6. The easing [easeT(t) = t*t*(3 - 2*t)] is 0 at 0, 1 at 1,
    non-decreasing on [[0,1]], and has derivative 0 at both ends. *)
Theorem easeT_smoothstep :
  easeT 0 = 0
  /\ easeT 1 = 1
  /\ (forall a b, 0 <= a -> a <= b -> b <= 1 -> easeT a <= easeT b)
  /\ derivable_pt_lim easeT 0 0
  /\ derivable_pt_lim easeT 1 0.
Proof.
  split; [unfold easeT; ring|].
  split; [unfold easeT; ring|].
  split; [exact easeT_monotone|].
  split.
  - replace 0 with (6 * 0 * (1 - 0)) at 2 by ring. apply easeT_derivative.
  - replace 0 with (6 * 1 * (1 - 1)) by ring. apply easeT_derivative.
Qed.

Lemma easeT_smoothstep_witness : easeT 0.25 <= easeT 0.5.
Proof.
  apply (proj1 (proj2 (proj2 easeT_smoothstep))); lra.
Defined.

(** ** Cone generators *)

Lemma polar_radius (r a : R) :
  0 <= r -> sqrt ((r * cos a) * (r * cos a) + (r * sin a) * (r * sin a)) = r.
Proof.
  intros Hr.
  replace ((r * cos a) * (r * cos a) + (r * sin a) * (r * sin a))
    with (r * r * ((sin a)² + (cos a)²)) by (unfold Rsqr; ring).
  rewrite sin2_cos2, Rmult_1_r. now apply sqrt_square.
Qed.

Lemma height_fraction (u H : R) : 0 < H -> u * H / H = u.
Proof. intros HH. field. lra. Qed.

Lemma sqrt_unit (u : R) : 0 <= u < 1 -> 0 <= sqrt u <= 1.
Proof.
  intros [H0 H1]. split; [apply sqrt_pos|].
  rewrite <- sqrt_1. apply sqrt_le_1_alt. lra.
Qed.

Lemma luxury_cone_point (H R0 off : R) (surfaceOnly : bool) (u1 u2 u3 : R) :
  0 < H -> 0 < R0 -> 0 <= u1 < 1 -> 0 <= u2 < 1 ->
  let p := LuxuryTree.randomInCone H R0 off surfaceOnly u1 u2 u3 in
  vy p + off = u1 * H
  /\ radial p = (if surfaceOnly then (1 - u1) * R0 * (0.85 + u2 * 0.15)
                 else sqrt u2 * ((1 - u1) * R0)).
Proof.
  intros HH HR Hu1 Hu2 p. subst p.
  unfold LuxuryTree.randomInCone, radial. cbv zeta. simpl vx; simpl vy; simpl vz.
  rewrite (height_fraction u1 H HH).
  split; [ring|].
  pose proof (sqrt_unit u2 Hu2).
  assert (0 <= (1 - u1) * R0) by nra.
  rewrite polar_radius; [reflexivity|].
  destruct surfaceOnly; apply Rmult_le_pos; lra.
Qed.

Lemma arix_cone_point (H R0 off u1 u2 : R) :
  0 < H -> 0 < R0 -> 0 <= u1 < 1 ->
  let p := ArixTree.randomInCone H R0 off u1 u2 in
  vy p + off = u1 * H /\ radial p = (1 - u1) * R0.
Proof.
  intros HH HR Hu1 p. subst p.
  unfold ArixTree.randomInCone, radial. cbv zeta. simpl vx; simpl vy; simpl vz.
  rewrite (height_fraction u1 H HH).
  split; [ring|].
  rewrite polar_radius; [reflexivity|nra].
Qed.

(** C4. For every height [H > 0], base radius [R0 > 0] and offset, a point
    of the formed-configuration cone generator (interior and surfaceOnly
    variant of LuxuryTree, and the ArixTree generator) has pre-offset
    height [y] in [[0,H)] and radial distance at most [R0 * (1 - y/H)];
    for the surfaceOnly variant the radial distance lies between 0.85 and
    1.0 times that bound. *)
Theorem cone_generator_bounds :
  forall (H R0 off : R) (surfaceOnly : bool) (u1 u2 u3 : R),
    0 < H -> 0 < R0 -> 0 <= u1 < 1 -> 0 <= u2 < 1 ->
    let p := LuxuryTree.randomInCone H R0 off surfaceOnly u1 u2 u3 in
    let y := vy p + off in
    let q := ArixTree.randomInCone H R0 off u1 u2 in
    let yq := vy q + off in
    (0 <= y < H
     /\ radial p <= R0 * (1 - y / H)
     /\ (surfaceOnly = true ->
         0.85 * (R0 * (1 - y / H)) <= radial p <= 1.0 * (R0 * (1 - y / H))))
    /\ (0 <= yq < H /\ radial q <= R0 * (1 - yq / H)).
Proof.
  intros H R0 off surfaceOnly u1 u2 u3 HH HR Hu1 Hu2 p y q yq.
  destruct (luxury_cone_point H R0 off surfaceOnly u1 u2 u3 HH HR Hu1 Hu2)
    as [Ey Er].
  destruct (arix_cone_point H R0 off u1 u2 HH HR Hu1) as [Eyq Erq].
  fold p in Ey, Er. fold q in Eyq, Erq.
  subst y yq. rewrite Ey, Er, Eyq, Erq, (height_fraction u1 H HH).
  pose proof (sqrt_unit u2 Hu2) as Hs.
  assert (Hb : 0 <= (1 - u1) * R0) by nra.
  split; [|split; [nra|nra]].
  split; [nra|]. split.
  - destruct surfaceOnly; nra.
  - intros ->. nra.
Qed.

Lemma cone_generator_bounds_witness :
  let p := LuxuryTree.randomInCone 8 3.5 4.2 true 0.5 0.5 0.5 in
  0 <= vy p + 4.2 < 8
  /\ radial p <= 3.5 * (1 - (vy p + 4.2) / 8)
  /\ 0.85 * (3.5 * (1 - (vy p + 4.2) / 8)) <= radial p.
Proof.
  pose proof (cone_generator_bounds 8 3.5 4.2 true 0.5 0.5 0.5
                ltac:(lra) ltac:(lra) ltac:(lra) ltac:(lra)) as W.
  cbv zeta in W. destruct W as [[Hy [Hr Hband]] _].
  split; [assumption|]. split; [assumption|].
  exact (proj1 (Hband eq_refl)).
Defined.

(** ** Ambient dust *)

Lemma dust_particle_guarded (treeState : TreeState) (delta time speed phase : R)
    (p : Vector3) :
  AmbientSystem.radius p <= 0.1 ->
  AmbientSystem.dust_particle treeState delta time speed phase p
  = (AmbientSystem.dust_drift delta time speed phase p, []).
Proof.
  intros Hr. unfold AmbientSystem.dust_particle, AmbientSystem.radius in *.
  cbv zeta. destruct (Rlt_dec 0.1 _) as [Hlt|_]; [lra|reflexivity].
Qed.

Lemma dust_particle_divisors (treeState : TreeState)
    (delta time speed phase : R) (p : Vector3) (d : R) :
  In d (snd (AmbientSystem.dust_particle treeState delta time speed phase p)) ->
  d = AmbientSystem.radius p /\ 0.1 < d.
Proof.
  unfold AmbientSystem.dust_particle, AmbientSystem.radius. cbv zeta.
  destruct (Rlt_dec 0.1 _) as [Hlt|Hge]; simpl.
  - intros [<-|[<-|[<-|[]]]]; split; (reflexivity || exact Hlt).
  - intros [].
Qed.

Lemma dust_frame_divisors (treeState : TreeState) (delta time : R)
    (ds : list AmbientSystem.Dust) (d : R) :
  In d (snd (AmbientSystem.dust_frame treeState delta time ds)) -> 0.1 < d.
Proof.
  induction ds as [|x ds IH]; simpl; [intros []|].
  destruct (AmbientSystem.dust_particle _ _ _ _ _ _) as [q divs] eqn:E.
  destruct (AmbientSystem.dust_frame _ _ _ ds) as [rest divs'].
  simpl in *. intros Hin. apply in_app_or in Hin as [Hin|Hin].
  - apply (dust_particle_divisors treeState delta time
             (AmbientSystem.d_speed x) (AmbientSystem.d_phase x)
             (AmbientSystem.d_pos x)).
    rewrite E. exact Hin.
  - now apply IH.
Qed.

(** C8. In the dust spring update the force step, the only place that
    divides by the current radius [r], runs only when [r > 0.1]; when
    [r <= 0.1] it is skipped and the particle only drifts, so no division
    by a radius of 0.1 or less occurs, for any particle of any frame. *)
Theorem dust_force_guard :
  forall (treeState : TreeState) (delta time speed phase : R) (p : Vector3),
    let r := AmbientSystem.radius p in
    let out := AmbientSystem.dust_particle treeState delta time speed phase p in
    (r <= 0.1 ->
       out = (AmbientSystem.dust_drift delta time speed phase p, []))
    /\ (0.1 < r -> snd out = [r; r; r])
    /\ (forall d, In d (snd out) -> d = r /\ 0.1 < d)
    /\ (forall ds d,
          In d (snd (AmbientSystem.dust_frame treeState delta time ds)) ->
          0.1 < d).
Proof.
  intros treeState delta time speed phase p r out. subst r out.
  split; [apply dust_particle_guarded|].
  split.
  - intros Hr. unfold AmbientSystem.dust_particle, AmbientSystem.radius in *.
    cbv zeta. destruct (Rlt_dec 0.1 _) as [_|Hn]; [reflexivity|lra].
  - split; [apply dust_particle_divisors|].
    intros ds d. apply dust_frame_divisors.
Qed.

Lemma dust_force_guard_witness :
  AmbientSystem.dust_particle FORMED 0.016 1 0.2 0 (mkVector3 0 0 0)
  = (AmbientSystem.dust_drift 0.016 1 0.2 0 (mkVector3 0 0 0), []).
Proof.
  apply (proj1 (dust_force_guard FORMED 0.016 1 0.2 0 (mkVector3 0 0 0))).
  unfold AmbientSystem.radius. simpl.
  replace (0 * 0 + 0 * 0 + 0 * 0) with 0 by ring. rewrite sqrt_0. lra.
Defined.

(** ** One-shot focus trigger *)

Section Focus.

Import LuxuryTree.

Lemma focus_tick_clears (u : R) (f : option Z) (ir : InteractionRef) :
  triggerFocus (snd (focus_tick u f ir)) = false.
Proof.
  unfold focus_tick. destruct (triggerFocus ir) eqn:E; simpl; auto.
Qed.

Lemma focus_tick_idle (u : R) (f : option Z) (ir : InteractionRef) :
  triggerFocus ir = false -> focus_tick u f ir = (f, ir).
Proof. unfold focus_tick. now intros ->. Qed.

Lemma render_idle (u : R) (s : FocusState) :
  triggerFocus (shared s) = false -> focus_event (Render u) s = s.
Proof.
  intros H. unfold focus_event. rewrite focus_tick_idle by exact H.
  now destruct s.
Qed.

Lemma renders_idle (us : list R) (s : FocusState) :
  triggerFocus (shared s) = false ->
  focus_run (map Render us) s = s /\ toggle_count (map Render us) s = O.
Proof.
  intros H. induction us as [|u us [IHr IHc]];
    cbn [focus_run toggle_count map]; [auto|].
  unfold toggles. rewrite render_idle by exact H.
  rewrite IHr, IHc, eqb_reflx. auto.
Qed.

Lemma render_consumes (u : R) (s : FocusState) :
  triggerFocus (shared s) = true ->
  let s' := focus_event (Render u) s in
  is_focused s' = negb (is_focused s)
  /\ triggerFocus (shared s') = false
  /\ toggles (Render u) s = true.
Proof.
  intros H. unfold toggles, focus_event, focus_tick, is_focused.
  rewrite H. destruct (focusId s); simpl; auto.
Qed.

Lemma assert_keeps_focus (s : FocusState) :
  is_focused (focus_event Assert_trigger s) = is_focused s
  /\ triggerFocus (shared (focus_event Assert_trigger s)) = true
  /\ toggles Assert_trigger s = false.
Proof.
  unfold toggles, is_focused. simpl. rewrite eqb_reflx. auto.
Qed.

Lemma toggle_count_app (tr1 tr2 : list FocusEvent) (s : FocusState) :
  toggle_count (tr1 ++ tr2) s
  = (toggle_count tr1 s + toggle_count tr2 (focus_run tr1 s))%nat.
Proof.
  revert s. induction tr1 as [|e tr1 IH]; intros s; simpl; [reflexivity|].
  rewrite IH. lia.
Qed.

Lemma focus_run_app (tr1 tr2 : list FocusEvent) (s : FocusState) :
  focus_run (tr1 ++ tr2) s = focus_run tr2 (focus_run tr1 s).
Proof.
  revert s. induction tr1 as [|e tr1 IH]; intros s; simpl; auto.
Qed.

Lemma assert_count_cons (e : FocusEvent) (tr : list FocusEvent) :
  assert_count (e :: tr)
  = ((if is_assert e then 1 else 0) + assert_count tr)%nat.
Proof. unfold assert_count. simpl. now destruct (is_assert e). Qed.

(** Toggles never outnumber the assertions still to be consumed. *)
Lemma toggles_bounded (tr : list FocusEvent) (s : FocusState) :
  (toggle_count tr s
   <= (if triggerFocus (shared s) then 1 else 0) + assert_count tr)%nat.
Proof.
  revert s. induction tr as [|e tr IH]; intros s;
    cbn [toggle_count]; [lia|].
  specialize (IH (focus_event e s)). rewrite assert_count_cons.
  destruct e as [|u]; cbn [is_assert].
  - destruct (assert_keeps_focus s) as (_ & Ht & Hn).
    rewrite Ht in IH. rewrite Hn.
    destruct (triggerFocus (shared s)); lia.
  - destruct (triggerFocus (shared s)) eqn:E.
    + destruct (render_consumes u s E) as (_ & Hc & Ht).
      cbv zeta in Hc. rewrite Hc in IH. rewrite Ht. lia.
    + unfold toggles. rewrite render_idle in * by exact E.
      rewrite E in IH. rewrite eqb_reflx. cbn [negb]. lia.
Qed.

(** C2. When the shared flag is asserted exactly once in a sequence of
    render ticks, the focus state flips between null and non-null exactly
    once, however many ticks run before and after the assertion; the tick
    that acts on the flag leaves it cleared, and over any sequence the
    toggles never outnumber the assertions. *)
Theorem one_shot_focus_trigger :
  forall (before after : list R) (u : R) (s : FocusState),
    triggerFocus (shared s) = false ->
    let tr := map Render before ++ [Assert_trigger] ++ map Render (u :: after) in
    toggle_count tr s = 1%nat
    /\ is_focused (focus_run tr s) = negb (is_focused s)
    /\ triggerFocus (shared (focus_run tr s)) = false
    /\ toggle_count (map Render before ++ [Assert_trigger]) s = 0%nat
    /\ (forall v f ir, triggerFocus (snd (focus_tick v f ir)) = false)
    /\ (forall tr' s', triggerFocus (shared s') = false ->
          (toggle_count tr' s' <= assert_count tr')%nat).
Proof.
  intros before after u s H tr. subst tr.
  destruct (renders_idle before s H) as [Rb Cb].
  destruct (assert_keeps_focus s) as (Fa & Ta & Na).
  destruct (render_consumes u (focus_event Assert_trigger s) Ta) as (Fc & Tc & Nc).
  cbv zeta in Fc, Tc.
  destruct (renders_idle after _ Tc) as [Ra Ca].
  rewrite !toggle_count_app, !focus_run_app, Rb, Cb.
  cbn [map app focus_run toggle_count].
  rewrite Ra, Ca, Na, Nc, Fc, Fa, Tc.
  repeat split; try reflexivity.
  - intros v f ir. apply focus_tick_clears.
  - intros tr' s' H'. pose proof (toggles_bounded tr' s') as B.
    rewrite H' in B. exact B.
Qed.

Lemma one_shot_focus_trigger_witness :
  let s := mkFocusState None (mkInteractionRef 0 0 false None) in
  toggle_count
    (map Render [0.1; 0.2] ++ [Assert_trigger] ++ map Render [0.3; 0.4; 0.5]) s
  = 1%nat.
Proof.
  exact (proj1 (one_shot_focus_trigger [0.1; 0.2] [0.4; 0.5] 0.3
                  (mkFocusState None (mkInteractionRef 0 0 false None))
                  eq_refl)).
Defined.

End Focus.

(** ** Mode poll *)

Section ModePoll.


Import App.

Lemma poll_commits_spec (ts : TreeState) (ir : InteractionRef) :
  poll_commits ts ir = true <-> exists m, targetMode ir = Some m /\ m <> ts.
Proof.
  unfold poll_commits. destruct (targetMode ir) as [m|].
  - rewrite negb_true_iff. split.
    + intros H. exists m. split; [reflexivity|].
      intros ->. destruct ts; discriminate.
    + intros (m' & [= <-] & Hne). destruct m, ts; simpl; congruence.
  - split; [discriminate|]. intros (m & [=] & _).
Qed.

Lemma poll_changes_iff (ts : TreeState) (ir : InteractionRef) :
  poll ts ir <> ts <-> poll_commits ts ir = true.
Proof.
  unfold poll, poll_commits. destruct (targetMode ir) as [m|].
  - destruct m, ts; simpl; split; congruence.
  - split; congruence.
Qed.

Lemma poll_count_cons (e : ModeEvent) (tr : list ModeEvent) :
  poll_count (e :: tr) = ((if is_poll e then 1 else 0) + poll_count tr)%nat.
Proof. unfold poll_count. simpl. now destruct (is_poll e). Qed.

Lemma commits_bounded (tr : list ModeEvent) (s : ModeState) :
  (commit_count tr s <= poll_count tr)%nat.
Proof.
  revert s. induction tr as [|e tr IH]; intros s;
    cbn [commit_count]; [lia|].
  specialize (IH (mode_event e s)). rewrite poll_count_cons.
  destruct e; cbn [commits is_poll].
  - lia.
  - destruct (poll_commits _ _); lia.
Qed.

Lemma poll_count_writes (ws : list (option TreeState)) :
  poll_count (map Overwrite_target ws ++ [Poll]) = 1%nat.
Proof.
  unfold poll_count. induction ws as [|w ws IH]; simpl; auto.
Qed.

(** C5. The poll commits a mode change only when the polled [targetMode]
    is non-null and differs from the committed mode; a null [targetMode]
    never commits; however often [targetMode] is rewritten before a poll,
    that poll commits at most once, and over any sequence commits never
    outnumber polls. *)
Theorem mode_poll_debounce :
  (forall ts ir, targetMode ir = None ->
     poll ts ir = ts /\ poll_commits ts ir = false)
  /\ (forall ts ir, poll_commits ts ir = true <->
        exists m, targetMode ir = Some m /\ m <> ts)
  /\ (forall ts ir, poll ts ir <> ts <-> poll_commits ts ir = true)
  /\ (forall ws s, (commit_count (map Overwrite_target ws ++ [Poll]) s <= 1)%nat)
  /\ (forall tr s, (commit_count tr s <= poll_count tr)%nat).
Proof.
  split.
  { intros ts ir H. unfold poll, poll_commits. rewrite H. auto. }
  split; [exact poll_commits_spec|].
  split; [exact poll_changes_iff|].
  split; [|exact commits_bounded].
  intros ws s. rewrite <- (poll_count_writes ws). apply commits_bounded.
Qed.

Lemma mode_poll_debounce_witness :
  poll FORMED (mkInteractionRef 0 0 false None) = FORMED
  /\ poll_commits FORMED (mkInteractionRef 0 0 false None) = false.
Proof.
  exact (proj1 mode_poll_debounce FORMED (mkInteractionRef 0 0 false None) eq_refl).
Defined.

End ModePoll.

(** ** Gesture derivation *)

Section Gestures.

Import HandController.

Lemma classify_spec (avg : R) :
  (classify avg = Some FORMED <-> avg < 0.2)
  /\ (classify avg = Some CHAOS <-> avg > 0.4)
  /\ (classify avg = None <-> 0.2 <= avg <= 0.4).
Proof.
  unfold classify.
  destruct (Rlt_dec avg 0.2) as [H1|H1]; [|destruct (Rgt_dec avg 0.4) as [H2|H2]];
    (repeat split; intros; try discriminate; try reflexivity; lra).
Qed.

Lemma pinch_logic_mode (lm : Landmarks) (t : R) (s : State) :
  targetMode (signal (pinch_logic lm t s)) = targetMode (signal s).
Proof.
  unfold pinch_logic, pinch_start.
  destruct (Rlt_dec _ _); [|reflexivity].
  destruct (isPinching (refs s)); [reflexivity|].
  destruct (Nat.eqb _ 2); reflexivity.
Qed.

Lemma process_hand_mode (s : State) (h : Hand) :
  targetMode (signal (process_hand s h)) = classify (avgDist (landmarks h)).
Proof.
  unfold process_hand, zoom_logic. cbn [signal set_zoomVelocity targetMode].
  now rewrite pinch_logic_mode.
Qed.

Lemma predict_last_hand (hs : list Hand) (h : Hand) (s : State) :
  targetMode (signal (predict (hs ++ [h]) s)) = classify (avgDist (landmarks h)).
Proof.
  unfold predict.
  destruct (hs ++ [h]) as [|x l] eqn:E; [now destruct hs|].
  rewrite <- E, fold_left_app. simpl. apply process_hand_mode.
Qed.

(** C10. On a frame with a detected hand, [targetMode] becomes FORMED
    exactly when the mean tip-to-wrist distance is below 0.2, CHAOS exactly
    when it is above 0.4, and null exactly in between; with several hands
    in the frame the last one processed decides. *)
Theorem hand_openness_to_mode :
  forall (s : State) (hs : list Hand) (h : Hand),
    let avg := avgDist (landmarks h) in
    let one := targetMode (signal (predict [h] s)) in
    let last := targetMode (signal (predict (hs ++ [h]) s)) in
    (one = Some FORMED <-> avg < 0.2)
    /\ (one = Some CHAOS <-> avg > 0.4)
    /\ (one = None <-> 0.2 <= avg <= 0.4)
    /\ last = one.
Proof.
  intros s hs h avg one last. subst avg one last.
  pose proof (predict_last_hand [] h s) as E1. cbn [app] in E1.
  rewrite (predict_last_hand hs h s), E1.
  destruct (classify_spec (avgDist (landmarks h))) as (A & B & C).
  auto.
Qed.

(** *** Pinch timing *)

Lemma process_hand_log (s : State) (h : Hand) :
  (log (process_hand s h) = log s
   /\ lastPinchTime (refs (process_hand s h)) = lastPinchTime (refs s)
   /\ pinchCount (refs (process_hand s h)) = pinchCount (refs s)
   /\ triggerFocus (signal (process_hand s h)) = triggerFocus (signal s))
  \/ (exists c rest, log (process_hand s h) = log s ++ Pinch_started c :: rest).
Proof.
  unfold process_hand, zoom_logic, pinch_logic, pinch_start.
  cbn [refs signal log set_targetMode triggerFocus].
  destruct (Rlt_dec _ _); [|left; auto].
  destruct (isPinching (refs s)); [left; auto|right].
  destruct (Nat.eqb _ 2); cbn [log]; rewrite <- ?app_assoc; cbn [app];
    eexists; eexists; reflexivity.
Qed.

Lemma app_grows_nil {A : Type} (l m : list A) : l ++ m = l -> m = [].
Proof.
  intros H. apply (f_equal (@length A)) in H. rewrite length_app in H.
  destruct m; [reflexivity|simpl in H; lia].
Qed.

Lemma fold_hands_log (hs : list Hand) (s : State) :
  exists evs, log (fold_left process_hand hs s) = log s ++ evs.
Proof.
  revert s. induction hs as [|h hs IH]; intros s; simpl.
  - exists []. now rewrite app_nil_r.
  - destruct (IH (process_hand s h)) as [evs E]. rewrite E.
    destruct (process_hand_log s h) as [(L & _)|(c & rest & L)]; rewrite L.
    + eauto.
    + rewrite <- app_assoc. eauto.
Qed.

Lemma fold_hands_quiet (hs : list Hand) (s : State) :
  log (fold_left process_hand hs s) = log s ->
  lastPinchTime (refs (fold_left process_hand hs s)) = lastPinchTime (refs s)
  /\ pinchCount (refs (fold_left process_hand hs s)) = pinchCount (refs s)
  /\ triggerFocus (signal (fold_left process_hand hs s)) = triggerFocus (signal s).
Proof.
  revert s. induction hs as [|h hs IH]; intros s; simpl; [auto|].
  intros Hq.
  destruct (fold_hands_log hs (process_hand s h)) as [evs E].
  destruct (process_hand_log s h) as [(L & T & C & F)|(c & rest & L)].
  - rewrite L in E. rewrite <- L in Hq.
    destruct (IH _ Hq) as (T' & C' & F'). rewrite T', C', F'. auto.
  - rewrite E, L, <- app_assoc in Hq. apply app_grows_nil in Hq. discriminate.
Qed.

Lemma predict_log (f : list Hand) (s : State) :
  exists evs, log (predict f s) = log s ++ evs.
Proof.
  destruct f as [|h hs].
  - exists []. simpl. now rewrite app_nil_r.
  - apply fold_hands_log.
Qed.

Lemma predict_quiet (f : list Hand) (s : State) :
  log (predict f s) = log s ->
  lastPinchTime (refs (predict f s)) = lastPinchTime (refs s)
  /\ pinchCount (refs (predict f s)) = pinchCount (refs s)
  /\ triggerFocus (signal (predict f s)) = triggerFocus (signal s).
Proof.
  destruct f as [|h hs]; [simpl; auto|]. apply fold_hands_quiet.
Qed.

Lemma run_log (fs : list (list Hand)) (s : State) :
  exists evs, log (run fs s) = log s ++ evs.
Proof.
  revert s. induction fs as [|f fs IH]; intros s; cbn [run].
  - exists []. now rewrite app_nil_r.
  - destruct (IH (predict f s)) as [evs E]. rewrite E.
    destruct (predict_log f s) as [evs' E']. rewrite E', <- app_assoc. eauto.
Qed.

(** Frames that log nothing leave the pinch counter, the time of the last
    pinch and the trigger flag as they were. *)
Lemma run_quiet (fs : list (list Hand)) (s : State) :
  log (run fs s) = log s ->
  lastPinchTime (refs (run fs s)) = lastPinchTime (refs s)
  /\ pinchCount (refs (run fs s)) = pinchCount (refs s)
  /\ triggerFocus (signal (run fs s)) = triggerFocus (signal s).
Proof.
  revert s. induction fs as [|f fs IH]; intros s; cbn [run]; [auto|].
  intros Hq.
  destruct (run_log fs (predict f s)) as [evs E].
  destruct (predict_log f s) as [evs' E'].
  assert (evs' = [] /\ evs = []) as [-> ->].
  { rewrite E, E', <- app_assoc in Hq. apply app_grows_nil in Hq.
    now apply app_eq_nil in Hq. }
  rewrite app_nil_r in E, E'.
  destruct (IH _ E) as (T & C & F). destruct (predict_quiet f s E') as (T' & C' & F').
  rewrite T, C, F. auto.
Qed.

(** A single-hand frame that starts a pinch. *)
Lemma predict_pinch_start (h : Hand) (s : State) :
  pinching h -> isPinching (refs s) = false ->
  let count := if Rlt_dec (now h - lastPinchTime (refs s)) 500
               then S (pinchCount (refs s)) else 1%nat in
  let s' := predict [h] s in
  lastPinchTime (refs s') = now h
  /\ (count = 2%nat ->
        log s' = log s ++ [Pinch_started 2; Focus_triggered]
        /\ pinchCount (refs s') = 0%nat
        /\ triggerFocus (signal s') = true)
  /\ (count <> 2%nat ->
        log s' = log s ++ [Pinch_started count]
        /\ pinchCount (refs s') = count
        /\ triggerFocus (signal s') = triggerFocus (signal s)).
Proof.
  intros Hp Hn count s'. subst count s'.
  unfold pinching in Hp.
  unfold predict, process_hand, zoom_logic, pinch_logic, pinch_start.
  cbn [fold_left refs signal log set_targetMode triggerFocus].
  destruct (Rlt_dec (pinchDist _) _) as [_|C]; [|contradiction].
  rewrite Hn.
  set (count := if Rlt_dec _ 500 then _ else _).
  destruct (Nat.eqb count 2) eqn:E;
    [apply Nat.eqb_eq in E|apply Nat.eqb_neq in E];
    cbn [refs signal log lastPinchTime pinchCount triggerFocus
         set_rotationVelocity set_triggerFocus].
  - split; [reflexivity|]. split; [|intros; contradiction].
    intros _. rewrite E, <- app_assoc. auto.
  - split; [reflexivity|]. split; [intros; contradiction|]. auto.
Qed.

Lemma trigger_count_app (s : State) (l evs : list GestureEvent) :
  log s = l ++ evs ->
  trigger_count s = (length (filter is_trigger l) + length (filter is_trigger evs))%nat.
Proof.
  intros E. unfold trigger_count. now rewrite E, filter_app, length_app.
Qed.

(** C3. Two pinch starts within the 500ms window (300ms apart, say) make
    [pinchCount] reach 2, execute [triggerFocus = true] exactly once and
    reset [pinchCount] to 0; two pinch starts 500ms or more apart (800ms,
    say) leave [pinchCount] at 1 and never set [triggerFocus].  The first
    pinch is one that is not itself the second of a pair; between the two
    starts any frames may run. *)
Theorem double_pinch_window :
  forall (s0 : State) (h1 h2 : Hand) (mid : list (list Hand)),
    pinchCount (refs s0) = 0%nat
      \/ 500 <= now h1 - lastPinchTime (refs s0) ->
    isPinching (refs s0) = false ->
    triggerFocus (signal s0) = false ->
    pinching h1 -> pinching h2 ->
    let s1 := predict [h1] s0 in
    let s2 := run mid s1 in
    let s3 := predict [h2] s2 in
    log s2 = log s1 ->
    isPinching (refs s2) = false ->
    log s1 = log s0 ++ [Pinch_started 1]
    /\ (now h2 - now h1 < 500 ->
          log s3 = log s0 ++ [Pinch_started 1; Pinch_started 2; Focus_triggered]
          /\ trigger_count s3 = S (trigger_count s0)
          /\ triggerFocus (signal s3) = true
          /\ pinchCount (refs s3) = 0%nat)
    /\ (500 <= now h2 - now h1 ->
          log s3 = log s0 ++ [Pinch_started 1; Pinch_started 1]
          /\ trigger_count s3 = trigger_count s0
          /\ triggerFocus (signal s3) = false
          /\ pinchCount (refs s3) = 1%nat).
Proof.
  intros s0 h1 h2 mid Hrest Hn0 Hf0 Hp1 Hp2 s1 s2 s3 Hquiet Hn2.
  destruct (predict_pinch_start h1 s0 Hp1 Hn0) as (T1 & _ & S1).
  cbv zeta in T1, S1. fold s1 in T1, S1.
  assert (C1 : (if Rlt_dec (now h1 - lastPinchTime (refs s0)) 500
                then S (pinchCount (refs s0)) else 1%nat) = 1%nat).
  { destruct (Rlt_dec _ 500) as [Hlt|_]; [|reflexivity].
    destruct Hrest as [->|Hge]; [reflexivity|lra]. }
  rewrite C1 in S1. destruct (S1 ltac:(lia)) as (L1 & P1 & F1).
  destruct (run_quiet mid s1 Hquiet) as (T2 & P2 & F2). fold s2 in T2, P2, F2.
  destruct (predict_pinch_start h2 s2 Hp2 Hn2) as (_ & Y & N).
  cbv zeta in Y, N. fold s3 in Y, N.
  rewrite T2, T1, P2, P1 in Y, N.
  split; [exact L1|]. split; intros Hgap.
  - destruct (Rlt_dec (now h2 - now h1) 500) as [_|C]; [|contradiction].
    destruct (Y eq_refl) as (L3 & P3 & F3).
    rewrite Hquiet, L1, <- app_assoc in L3. cbn [app] in L3.
    repeat split; try assumption.
    rewrite (trigger_count_app s3 _ _ L3). unfold trigger_count. simpl. lia.
  - destruct (Rlt_dec (now h2 - now h1) 500) as [C|_]; [lra|].
    destruct (N ltac:(lia)) as (L3 & P3 & F3).
    rewrite Hquiet, L1, <- app_assoc in L3. cbn [app] in L3.
    repeat split; try assumption.
    + rewrite (trigger_count_app s3 _ _ L3). unfold trigger_count. simpl. lia.
    + rewrite F3, F2, F1. exact Hf0.
Qed.

Lemma hypot_x (a : R) : hypot a 0 = Rabs a.
Proof.
  unfold hypot. replace (a * a + 0 * 0) with (a²) by (unfold Rsqr; ring).
  apply sqrt_Rsqr_abs.
Qed.

Lemma hypot_y (b : R) : hypot 0 b = Rabs b.
Proof.
  unfold hypot. replace (0 * 0 + b * b) with (b²) by (unfold Rsqr; ring).
  apply sqrt_Rsqr_abs.
Qed.

Lemma Rabs_half : Rabs 0.5 = 0.5 /\ Rabs (- 0.5) = 0.5.
Proof. split; unfold Rabs; destruct (Rcase_abs _); lra. Qed.

Lemma closed_hand_pinching (t : R) : pinching (mkHand closed_hand t).
Proof.
  unfold pinching, pinchDist, pinchThreshold, closed_hand. simpl.
  replace (0.5 - 0.5) with 0 by lra. rewrite hypot_x, Rabs_R0. lra.
Qed.

Lemma open_hand_not_pinching (t : R) : ~ pinching (mkHand open_hand t).
Proof.
  unfold pinching, pinchDist, pinchThreshold, open_hand. simpl.
  replace (0.5 - 0.5) with 0 by lra.
  rewrite hypot_x. unfold Rabs. destruct (Rcase_abs _); lra.
Qed.

Lemma open_hand_avgDist : avgDist open_hand = 0.5.
Proof.
  unfold avgDist, open_hand. simpl.
  replace (0.5 - 0.5) with 0 by lra.
  replace (0 - 0.5) with (- 0.5) by lra.
  replace (1 - 0.5) with 0.5 by lra.
  rewrite !hypot_x, !hypot_y. destruct Rabs_half as [-> ->]. lra.
Qed.

Lemma hand_openness_to_mode_witness :
  targetMode (signal (predict [mkHand open_hand 0] initial_state)) = Some CHAOS.
Proof.
  apply (proj1 (proj2 (hand_openness_to_mode initial_state []
                         (mkHand open_hand 0)))).
  cbn [landmarks]. rewrite open_hand_avgDist. lra.
Defined.

Lemma release_hand (s : State) (h : Hand) :
  ~ pinching h ->
  log (process_hand s h) = log s
  /\ isPinching (refs (process_hand s h)) = false.
Proof.
  intros Hn. unfold pinching in Hn.
  unfold process_hand, zoom_logic, pinch_logic.
  cbn [refs signal log set_targetMode].
  destruct (Rlt_dec _ _); [contradiction|]. auto.
Qed.

Lemma double_pinch_window_witness :
  let h1 := mkHand closed_hand 1000 in
  let h2 := mkHand closed_hand 1300 in
  let release := [[mkHand open_hand 1100]; []] in
  let s3 := predict [h2] (run release (predict [h1] initial_state)) in
  log s3 = [Pinch_started 1; Pinch_started 2; Focus_triggered]
  /\ trigger_count s3 = 1%nat
  /\ triggerFocus (signal s3) = true
  /\ pinchCount (refs s3) = 0%nat.
Proof.
  intros h1 h2 release s3.
  assert (Q : log (run release (predict [h1] initial_state))
              = log (predict [h1] initial_state)
              /\ isPinching (refs (run release (predict [h1] initial_state)))
                 = false).
  { subst release. cbn [run predict fold_left refs log isPinching].
    apply release_hand, open_hand_not_pinching. }
  destruct Q as [Q1 Q2].
  pose proof (double_pinch_window initial_state h1 h2 release
                (or_introl eq_refl) eq_refl eq_refl
                (closed_hand_pinching 1000) (closed_hand_pinching 1300)
                Q1 Q2) as W.
  destruct W as (_ & W & _). fold s3 in W.
  apply W. subst h1 h2. simpl. lra.
Defined.

(** C9 at the failing input: an open hand in one frame, no hand in the
    next.  Both velocities are zeroed, but [targetMode] still holds the
    CHAOS of the earlier frame, and a poll with FORMED committed switches
    the tree to CHAOS. *)
Theorem no_hand_frame_keeps_mode :
  let s := run [[mkHand open_hand 0]; []] initial_state in
  rotationVelocity (signal s) = 0
  /\ zoomVelocity (signal s) = 0
  /\ targetMode (signal s) = Some CHAOS
  /\ App.poll FORMED (signal s) = CHAOS
  /\ App.poll_commits FORMED (signal s) = true.
Proof.
  cbn [run]. set (s1 := predict [mkHand open_hand 0] initial_state).
  assert (M : targetMode (signal s1) = Some CHAOS).
  { subst s1. pose proof (predict_last_hand [] (mkHand open_hand 0) initial_state) as E.
    cbn [app] in E. rewrite E. cbn [landmarks]. rewrite open_hand_avgDist.
    apply (proj1 (proj2 (classify_spec 0.5))). lra. }
  unfold App.poll, App.poll_commits.
  cbn [predict signal set_zoomVelocity set_rotationVelocity
       rotationVelocity zoomVelocity targetMode].
  rewrite M. simpl. auto.
Qed.

(** On a frame without hands [predict] zeroes the two velocities and
    writes nothing else. *)
Lemma predict_no_hands (s : State) :
  rotationVelocity (signal (predict [] s)) = 0
  /\ zoomVelocity (signal (predict [] s)) = 0
  /\ targetMode (signal (predict [] s)) = targetMode (signal s)
  /\ triggerFocus (signal (predict [] s)) = triggerFocus (signal s)
  /\ refs (predict [] s) = refs s.
Proof. simpl. auto. Qed.

End Gestures.

(** ** Photos, frames and hover outline *)

Section Photos.


Import LuxuryTree.

Lemma photos_from_ext (easeT : R) (f f' h h' : option Z) (ps : list ParticleData) :
  forall (d : Object3D) (i : nat),
    (forall j, (i <= j < i + length ps)%nat ->
       id_eqb (Some (Z.of_nat j)) f = id_eqb (Some (Z.of_nat j)) f'
       /\ id_eqb (Some (Z.of_nat j)) h && negb (id_eqb h None)
          = id_eqb (Some (Z.of_nat j)) h' && negb (id_eqb h' None)) ->
    photos_from easeT f h d i ps = photos_from easeT f' h' d i ps.
Proof.
  induction ps as [|p ps IH]; intros d i Hj; cbn [photos_from]; [reflexivity|].
  assert (B : photo_body easeT f h d p i = photo_body easeT f' h' d p i).
  { unfold photo_body. destruct (Hj i) as [-> ->]; [simpl; lia|reflexivity]. }
  rewrite B. destruct (photo_body easeT f' h' d p i) as [d1 m].
  rewrite (IH d1 (S i)); [reflexivity|].
  intros j Hr. apply Hj. simpl. lia.
Qed.

Lemma id_out_of_range (k : Z) (n j : nat) :
  Z.of_nat n = PHOTO_COUNT -> out_of_range k -> (j < n)%nat ->
  id_eqb (Some (Z.of_nat j)) (Some k) = false.
Proof.
  unfold out_of_range, id_eqb. intros Hn Hk Hj.
  apply Z.eqb_neq. lia.
Qed.

Lemma photo_at_out_of_range (photos : list ParticleData) (k : Z) :
  Z.of_nat (length photos) = PHOTO_COUNT -> out_of_range k ->
  photo_at photos k = None.
Proof.
  unfold out_of_range, photo_at. intros Hn Hk.
  destruct (Z.ltb_spec k 0); [reflexivity|].
  apply nth_error_None. lia.
Qed.

Lemma id_neq_false (a : option Z) (k : Z) :
  a <> Some k -> id_eqb (Some k) a = false.
Proof.
  destruct a as [x|]; simpl; [|reflexivity].
  intros Hne. apply Z.eqb_neq. congruence.
Qed.

Lemma focus_tick_in_range (u : R) (ir : InteractionRef) :
  0 <= u < 1 -> triggerFocus ir = true ->
  exists k, fst (focus_tick u None ir) = Some k /\ ~ out_of_range k.
Proof.
  intros Hu Ht. unfold focus_tick. rewrite Ht. cbn [fst].
  eexists. split; [reflexivity|].
  destruct (base_Int_part (u * IZR PHOTO_COUNT)) as [Hlo Hhi].
  unfold out_of_range, PHOTO_COUNT in *.
  intros [Hneg|Hbig].
  - apply IZR_lt in Hneg.
    assert (IZR (Int_part (u * 20)) <= -1).
    { apply IZR_le. apply lt_IZR in Hneg. lia. }
    lra.
  - apply IZR_le in Hbig. lra.
Qed.

(** C7 as the code has it.  With [PHOTO_COUNT] photos and an id [k]
    outside [[0, PHOTO_COUNT)]: a focus id [k] leaves the photo and frame
    loop as with no focus, and the hover outline too unless the hovered id
    is that same [k]; a hovered id [k] leaves the photo and frame loop as
    with no hover; the hover outline step, which checks only that the
    hovered id is non-null and differs from the focus id, reads
    [photos[k]], finds [undefined] and throws.  The focus id the code
    draws itself, [Math.floor(Math.random() * PHOTO_COUNT)], is in range. *)
Theorem selection_out_of_range :
  forall (easeT : R) (photos : list ParticleData) (dummy : Object3D) (k : Z),
    Z.of_nat (length photos) = PHOTO_COUNT ->
    out_of_range k ->
    (forall hoveredId,
       photos_update easeT (Some k) hoveredId dummy photos
       = photos_update easeT None hoveredId dummy photos)
    /\ (forall hoveredId hoverMesh,
          hoveredId <> Some k ->
          hover_update easeT (Some k) hoveredId photos hoverMesh
          = hover_update easeT None hoveredId photos hoverMesh)
    /\ (forall focusId,
          photos_update easeT focusId (Some k) dummy photos
          = photos_update easeT focusId None dummy photos)
    /\ (forall focusId hm,
          focusId <> Some k ->
          hover_update easeT focusId (Some k) photos (Some hm) = TypeError)
    /\ (forall u ir,
          0 <= u < 1 -> triggerFocus ir = true ->
          exists j, fst (focus_tick u None ir) = Some j /\ ~ out_of_range j).
Proof.
  intros easeT photos dummy k Hn Hk.
  split; [|split; [|split; [|split; [|exact focus_tick_in_range]]]].
  - intros h. unfold photos_update. apply photos_from_ext.
    intros j Hj. split; [|reflexivity].
    rewrite (id_out_of_range k (length photos) j Hn Hk) by lia. reflexivity.
  - intros h hm Hne. unfold hover_update.
    destruct hm as [hm|]; [|reflexivity].
    destruct h as [x|]; [|reflexivity].
    rewrite (id_neq_false (Some k) x) by congruence. reflexivity.
  - intros f. unfold photos_update. apply photos_from_ext.
    intros j Hj. split; [reflexivity|].
    rewrite (id_out_of_range k (length photos) j Hn Hk) by lia. reflexivity.
  - intros f hm Hne. unfold hover_update.
    rewrite (id_neq_false f k Hne). cbn [negb].
    now rewrite (photo_at_out_of_range photos k Hn Hk).
Qed.

Lemma selection_out_of_range_witness :
  photos_update 1 None (Some 20%Z) sample_mesh sample_photos
  = photos_update 1 None None sample_mesh sample_photos.
Proof.
  exact (proj1 (proj2 (proj2
           (selection_out_of_range 1 sample_photos sample_mesh 20
              eq_refl (or_intror (Z.le_refl 20))))) None).
Defined.

(** C7 fails as stated: with 20 photos, nothing focused and the outline
    mounted, the out-of-range hovered id 20 makes the hover step throw,
    whereas with no hovered id it hides the outline. *)
Lemma hover_out_of_range_throws :
  out_of_range 20
  /\ Z.of_nat (length sample_photos) = PHOTO_COUNT
  /\ hover_update 1 None (Some 20%Z) sample_photos (Some sample_mesh) = TypeError
  /\ hover_update 1 None None sample_photos (Some sample_mesh)
     = Done (Some (set_visible false sample_mesh)).
Proof.
  split; [right; reflexivity|]. split; [reflexivity|]. split; reflexivity.
Qed.

End Photos.

(** * Further properties of the code *)

(** ** Scatter and set-up generators *)

Lemma cbrt_unit (x : R) : 0 <= x < 1 -> 0 <= cbrt x < 1.
Proof.
  intros [H0 H1]. unfold cbrt.
  destruct (total_order_T x 0) as [[Hneg|Hz]|Hpos]; [lra|lra|].
  unfold Rpower. split; [left; apply exp_pos|].
  rewrite <- exp_0. apply exp_increasing.
  assert (ln x < 0) by (rewrite <- ln_1; apply ln_increasing; lra).
  lra.
Qed.

Lemma cbrt_cube (x : R) : cbrt x * cbrt x * cbrt x = x.
Proof.
  assert (P : forall y, 0 < y ->
            Rpower y (/ 3) * Rpower y (/ 3) * Rpower y (/ 3) = y).
  { intros y Hy. rewrite <- !Rpower_plus.
    replace (/ 3 + / 3 + / 3) with 1 by lra. now apply Rpower_1. }
  unfold cbrt.
  destruct (total_order_T x 0) as [[Hneg|Hz]|Hpos].
  - specialize (P (- x) ltac:(lra)). lra.
  - lra.
  - now apply P.
Qed.

Lemma spherical_length (r phi theta : R) :
  0 <= r ->
  vlength (mkVector3 (r * sin phi * cos theta)
                     (r * sin phi * sin theta)
                     (r * cos phi)) = r.
Proof.
  intros Hr. unfold vlength. cbn [vx vy vz].
  replace (r * sin phi * cos theta * (r * sin phi * cos theta)
           + r * sin phi * sin theta * (r * sin phi * sin theta)
           + r * cos phi * (r * cos phi))
    with (r * r * ((sin phi)² * ((sin theta)² + (cos theta)²) + (cos phi)²))
    by (unfold Rsqr; ring).
  rewrite sin2_cos2, Rmult_1_r, sin2_cos2, Rmult_1_r.
  now apply sqrt_square.
Qed.

Lemma randomInSphere_length (radius u v w : R) :
  0 <= radius -> 0 <= w < 1 ->
  vlength (randomInSphere radius u v w) = cbrt w * radius.
Proof.
  intros Hr Hw. pose proof (cbrt_unit w Hw).
  unfold randomInSphere. cbv zeta. apply spherical_length. nra.
Qed.

(** X1. [randomInSphere(radius)] returns a point whose distance from the
    origin is [cbrt(w) * radius] for its third draw [w]: at most [radius],
    strictly less for a positive radius, and with the cube of the distance
    equal to [w * radius^3]. *)
Theorem randomInSphere_in_ball :
  forall (radius u v w : R),
    0 <= radius -> 0 <= w < 1 ->
    let p := randomInSphere radius u v w in
    vlength p = cbrt w * radius
    /\ vlength p <= radius
    /\ (0 < radius -> vlength p < radius)
    /\ vlength p * vlength p * vlength p = w * (radius * radius * radius).
Proof.
  intros radius u v w Hr Hw p. subst p.
  pose proof (cbrt_unit w Hw) as Hc. pose proof (cbrt_cube w) as Hq.
  rewrite (randomInSphere_length radius u v w Hr Hw). split; [reflexivity|]. split; [nra|]. split; [nra|].
  replace (cbrt w * radius * (cbrt w * radius) * (cbrt w * radius))
    with (cbrt w * cbrt w * cbrt w * (radius * radius * radius)) by ring.
  now rewrite Hq.
Qed.

Lemma randomInSphere_in_ball_witness :
  vlength (randomInSphere 8 0.1 0.2 0.5) <= 8.
Proof.
  exact (proj1 (proj2 (randomInSphere_in_ball 8 0.1 0.2 0.5
                         ltac:(lra) ltac:(lra)))).
Defined.

(** X2. A dust particle is set up within distance 15 of the origin, at
    [15 * cbrt(u1)], with a speed in [[0.1, 0.3)] and a phase in
    [[0, 2*PI)]. *)
Theorem dust_init_ranges :
  forall (u1 u2 u3 u4 u5 : R),
    0 <= u1 < 1 -> 0 <= u4 < 1 -> 0 <= u5 < 1 ->
    let d := AmbientSystem.dust_init u1 u2 u3 u4 u5 in
    AmbientSystem.radius (AmbientSystem.d_pos d) = 15 * cbrt u1
    /\ AmbientSystem.radius (AmbientSystem.d_pos d) < 15
    /\ 0.1 <= AmbientSystem.d_speed d < 0.3
    /\ 0 <= AmbientSystem.d_phase d < 2 * PI.
Proof.
  intros u1 u2 u3 u4 u5 H1 H4 H5 d. subst d.
  pose proof (cbrt_unit u1 H1) as Hc. pose proof PI_RGT_0 as Hpi.
  assert (E : AmbientSystem.radius
                (AmbientSystem.d_pos (AmbientSystem.dust_init u1 u2 u3 u4 u5))
              = 15 * cbrt u1).
  { unfold AmbientSystem.dust_init. cbv zeta. cbn [AmbientSystem.d_pos].
    change (AmbientSystem.radius ?p) with (vlength p).
    apply spherical_length. lra. }
  rewrite E. unfold AmbientSystem.dust_init. cbv zeta.
  cbn [AmbientSystem.d_speed AmbientSystem.d_phase].
  repeat split; try lra; nra.
Qed.

Lemma dust_init_ranges_witness :
  AmbientSystem.radius
    (AmbientSystem.d_pos (AmbientSystem.dust_init 0.5 0.5 0.5 0.5 0.5)) < 15.
Proof.
  exact (proj1 (proj2 (dust_init_ranges 0.5 0.5 0.5 0.5 0.5
                         ltac:(lra) ltac:(lra) ltac:(lra)))).
Defined.

(** X3. An ArixTree ornament is placed below height 6.5 of the needle cone
    (height 7, base radius 2.5), at a radial distance between 0.8 and 1
    times the cone radius at its height: never outside the cone, never at
    its apex. *)
Theorem ornament_placement :
  forall (u1 u2 u3 : R),
    0 <= u1 < 1 -> 0 <= u2 < 1 ->
    let p := ArixTree.ornament_treePos u1 u2 u3 in
    let y := vy p + 3.5 in
    let maxR := (1 - y / 7) * 2.5 in
    0 <= y < 6.5
    /\ 2.5 / 14 < maxR <= 2.5
    /\ 0.8 * maxR <= radial p < maxR.
Proof.
  intros u1 u2 u3 H1 H2 p y maxR.
  assert (Ey : y = u1 * 6.5).
  { subst y p. unfold ArixTree.ornament_treePos. cbn [vy]. ring. }
  assert (Em : maxR = (1 - u1 * 6.5 / 7) * 2.5) by (subst maxR; now rewrite Ey).
  assert (Er : radial p = u2 * (maxR * 0.2) + maxR * 0.8).
  { rewrite Em. subst p. unfold ArixTree.ornament_treePos, radial.
    cbv zeta. cbn [vx vz]. apply polar_radius. nra. }
  rewrite Er, Ey. rewrite Em. repeat split; nra.
Qed.

Lemma ornament_placement_witness :
  radial (ArixTree.ornament_treePos 0.5 0.5 0.5)
  < (1 - (vy (ArixTree.ornament_treePos 0.5 0.5 0.5) + 3.5) / 7) * 2.5.
Proof.
  exact (proj2 (proj2 (proj2 (ornament_placement 0.5 0.5 0.5
                                ltac:(lra) ltac:(lra))))).
Defined.


(** ** Golden spiral *)

Section Spiral.

Import AmbientSystem.

Lemma spiral_point_shape (i : nat) :
  (i < 300)%nat ->
  radial (spiral_point i) = 6 - INR i / 60
  /\ vy (spiral_point i) = INR i / 30 - 5.
Proof.
  intros Hi. apply lt_INR in Hi.
  replace (INR 300) with 300 in Hi
    by (change 300%nat with (Z.to_nat 300); rewrite INR_IZR_INZ; simpl; lra).
  pose proof (pos_INR i) as H0.
  unfold spiral_point, radial. cbv zeta. cbn [vx vy vz].
  split; [|lra].
  replace (cos (INR i / 300 * PI * 12) * (5 * (1 - INR i / 300) + 1.0) *
           (cos (INR i / 300 * PI * 12) * (5 * (1 - INR i / 300) + 1.0)) +
           sin (INR i / 300 * PI * 12) * (5 * (1 - INR i / 300) + 1.0) *
           (sin (INR i / 300 * PI * 12) * (5 * (1 - INR i / 300) + 1.0)))
    with ((6 - INR i / 60) * cos (INR i / 300 * PI * 12)
          * ((6 - INR i / 60) * cos (INR i / 300 * PI * 12))
          + (6 - INR i / 60) * sin (INR i / 300 * PI * 12)
            * ((6 - INR i / 60) * sin (INR i / 300 * PI * 12))) by (field_simplify; lra).
  apply polar_radius. lra.
Qed.

Lemma flat_triples_length (g : nat -> Vector3) (l : list nat) :
  length (flat_map (fun i => [vx (g i); vy (g i); vz (g i)]) l)
  = (3 * length l)%nat.
Proof.
  induction l as [|x l IH]; [reflexivity|].
  cbn [flat_map]. rewrite length_app, IH. cbn [length]. lia.
Qed.

Lemma flat_triples_nth (g : nat -> Vector3) (l : list nat) :
  forall i x, nth_error l i = Some x ->
    let flat := flat_map (fun i => [vx (g i); vy (g i); vz (g i)]) l in
    nth_error flat (3 * i) = Some (vx (g x))
    /\ nth_error flat (3 * i + 1) = Some (vy (g x))
    /\ nth_error flat (3 * i + 2) = Some (vz (g x)).
Proof.
  induction l as [|a l IH]; intros i x Hx; [destruct i; discriminate|].
  destruct i as [|i].
  - injection Hx as ->. cbn. auto.
  - cbn [nth_error] in Hx. specialize (IH i x Hx). cbv zeta in IH.
    destruct IH as (A & B & C). cbv zeta.
    replace (3 * S i)%nat with (S (S (S (3 * i)))) by lia.
    replace (S (S (S (3 * i))) + 1)%nat with (S (S (S (3 * i + 1)))) by lia.
    replace (S (S (S (3 * i))) + 2)%nat with (S (S (S (3 * i + 2)))) by lia.
    cbn [flat_map app nth_error]. auto.
Qed.

(** X5. The golden spiral array holds 900 numbers, three per index
    [i < 300]: a point at height [i/30 - 5], rising from -5 to just under
    5, at radial distance [6 - i/60], shrinking from 6 to just above 1. *)
Theorem spiral_points_shape :
  length spiralPoints = 900%nat
  /\ (forall i, (i < 300)%nat ->
        let p := spiral_point i in
        nth_error spiralPoints (3 * i) = Some (vx p)
        /\ nth_error spiralPoints (3 * i + 1) = Some (vy p)
        /\ nth_error spiralPoints (3 * i + 2) = Some (vz p)
        /\ vy p = INR i / 30 - 5
        /\ radial p = 6 - INR i / 60
        /\ - 5 <= vy p < 5
        /\ 1 < radial p <= 6).
Proof.
  split.
  - unfold spiralPoints. cbv zeta.
    rewrite (flat_triples_length spiral_point), length_seq. reflexivity.
  - intros i Hi p.
    assert (Hn : nth_error (seq 0 300) i = Some i).
    { rewrite nth_error_seq. destruct (Nat.ltb_spec i 300); [reflexivity|lia]. }
    destruct (flat_triples_nth spiral_point (seq 0 300) i i Hn) as (A & B & C).
    destruct (spiral_point_shape i Hi) as [Er Ey].
    change (flat_map _ (seq 0 300)) with spiralPoints in A, B, C.
    fold p in A, B, C, Er, Ey.
    assert (Hb : 0 <= INR i < 300).
    { split; [apply pos_INR|]. apply lt_INR in Hi.
      replace (INR 300) with 300 in Hi
        by (change 300%nat with (Z.to_nat 300); rewrite INR_IZR_INZ; simpl; lra).
      exact Hi. }
    repeat split; try assumption; lra.
Qed.

Lemma spiral_points_shape_witness :
  1 < radial (spiral_point 150) <= 6.
Proof.
  exact (proj2 (proj2 (proj2 (proj2 (proj2 (proj2
           (proj2 spiral_points_shape 150%nat ltac:(lia)))))))).
Defined.

End Spiral.

(** ** Generated groups *)

Section Groups.

Import LuxuryTree.

Variable src : nat -> R.
Hypothesis src_unit : unit_stream src.

Variables height maxRadius yOffset sphere scale0 speed0 : R.
Hypothesis height_pos : 0 < height.
Hypothesis maxRadius_pos : 0 < maxRadius.
Hypothesis sphere_nonneg : 0 <= sphere.

Lemma decoration_run (i n : nat) :
  decoration height maxRadius yOffset sphere scale0 speed0 i src n
  = (mkParticleData (Z.of_nat i)
       (randomInSphere sphere (src (3 + n)) (src (4 + n)) (src (5 + n)))
       (randomInCone height maxRadius yOffset true
          (src n) (src (1 + n)) (src (2 + n)))
       scale0 speed0 (src (6 + n) * PI),
     (7 + n)%nat).
Proof. reflexivity. Qed.

Lemma decoration_item_ok (i n : nat) :
  decoration_ok height maxRadius yOffset sphere scale0 speed0 i
    (fst (decoration height maxRadius yOffset sphere scale0 speed0 i src n)).
Proof.
  rewrite decoration_run. cbn [fst]. unfold decoration_ok.
  cbn [id scale speed phase scatterPosition treePosition].
  pose proof PI_RGT_0 as Hpi.
  pose proof (src_unit (6 + n)%nat) as H6.
  pose proof (randomInSphere_length sphere (src (3 + n)) (src (4 + n))
                (src (5 + n)) sphere_nonneg (src_unit _)) as Hs.
  pose proof (cbrt_unit _ (src_unit (5 + n)%nat)) as Hc.
  destruct (luxury_cone_point height maxRadius yOffset true
              (src n) (src (1 + n)) (src (2 + n))
              height_pos maxRadius_pos (src_unit _) (src_unit _))
    as [Ey Er].
  cbv zeta in Ey, Er. cbv zeta. rewrite Hs, Ey, Er.
  rewrite (height_fraction _ _ height_pos).
  pose proof (src_unit n) as H0. pose proof (src_unit (1 + n)%nat) as H1.
  assert (0 <= (1 - src n) * maxRadius) by nra.
  repeat split; try reflexivity; try nra.
Qed.

Lemma push_loop_step (item : nat -> Rand.t ParticleData) (i k n : nat) :
  push_loop item i (S k) src n
  = (let '(x, n1) := item i src n in
     let '(xs, n2) := push_loop item (S i) k src n1 in
     (x :: xs, n2)).
Proof.
  cbn [push_loop]. unfold Rand.bind, Rand.ret.
  destruct (item i src n) as [x n1].
  destruct (push_loop item (S i) k src n1) as [xs n2]. reflexivity.
Qed.

Lemma push_loop_ok (count : nat) :
  forall i n,
    let out := push_loop (decoration height maxRadius yOffset sphere scale0 speed0)
                         i count src n in
    length (fst out) = count
    /\ snd out = (n + 7 * count)%nat
    /\ (forall j x, nth_error (fst out) j = Some x ->
          decoration_ok height maxRadius yOffset sphere scale0 speed0 (i + j) x).
Proof.
  induction count as [|k IH]; intros i n out; subst out.
  - cbn [push_loop]. unfold Rand.ret. cbn [fst snd length].
    split; [reflexivity|]. split; [lia|]. intros [|j] x Hx; discriminate.
  - rewrite push_loop_step.
    pose proof (decoration_item_ok i n) as Hitem.
    destruct (decoration height maxRadius yOffset sphere scale0 speed0 i src n)
      as [x0 n1] eqn:E0.
    assert (N1 : n1 = (7 + n)%nat).
    { rewrite decoration_run in E0. now injection E0. }
    cbn [fst] in Hitem. subst n1.
    specialize (IH (S i) (7 + n)%nat). cbv zeta in IH.
    destruct (push_loop _ (S i) k src (7 + n)%nat) as [xs n2].
    cbn [fst snd] in IH. destruct IH as (L & N & Each).
    cbn [fst snd length].
    split; [lia|]. split; [lia|].
    intros [|j] x Hx.
    + injection Hx as <-. now rewrite Nat.add_0_r.
    + cbn [nth_error] in Hx. replace (i + S j)%nat with (S i + j)%nat by lia.
      now apply Each.
Qed.

End Groups.

(** X4. The hats, socks and photos generated at start-up: whatever the
    random draws (each in [[0,1)]) and wherever in the stream the loop
    starts, a group has exactly its count of particles (40, 40 and
    [PHOTO_COUNT]) and uses seven draws per particle; the particle at
    index [j] has id [j], the group's fixed scale and speed, a phase in
    [[0, PI)], a scatter point within the group's sphere and a formed
    point in the surface band of the group's cone. *)
Theorem decoration_groups :
  forall (src : nat -> R) (n : nat),
    unit_stream src ->
    let h := LuxuryTree.hats src n in
    let s := LuxuryTree.socks src n in
    let p := LuxuryTree.photos src n in
    (length (fst h) = 40%nat /\ snd h = (n + 280)%nat
     /\ forall j x, nth_error (fst h) j = Some x ->
          LuxuryTree.decoration_ok 8 3.5 4.0 10 0.25 0.2 j x)
    /\ (length (fst s) = 40%nat /\ snd s = (n + 280)%nat
        /\ forall j x, nth_error (fst s) j = Some x ->
             LuxuryTree.decoration_ok 7 3.2 3.5 10 0.2 0.25 j x)
    /\ (Z.of_nat (length (fst p)) = LuxuryTree.PHOTO_COUNT
        /\ snd p = (n + 140)%nat
        /\ forall j x, nth_error (fst p) j = Some x ->
             LuxuryTree.decoration_ok 8 3.5 4.2 8 0.4 0.1 j x).
Proof.
  intros src n Hsrc h s p. subst h s p.
  unfold LuxuryTree.hats, LuxuryTree.socks, LuxuryTree.photos.
  destruct (push_loop_ok src Hsrc 8 3.5 4.0 10 0.25 0.2
              ltac:(lra) ltac:(lra) ltac:(lra) LuxuryTree.HAT_COUNT 0%nat n)
    as (L1 & N1 & E1).
  destruct (push_loop_ok src Hsrc 7 3.2 3.5 10 0.2 0.25
              ltac:(lra) ltac:(lra) ltac:(lra) LuxuryTree.SOCK_COUNT 0%nat n)
    as (L2 & N2 & E2).
  destruct (push_loop_ok src Hsrc 8 3.5 4.2 8 0.4 0.1
              ltac:(lra) ltac:(lra) ltac:(lra)
              (Z.to_nat LuxuryTree.PHOTO_COUNT) 0%nat n)
    as (L3 & N3 & E3).
  split; [|split].
  - split; [exact L1|]. split; [exact N1|]. exact E1.
  - split; [exact L2|]. split; [exact N2|]. exact E2.
  - split; [rewrite L3; reflexivity|]. split; [exact N3|]. exact E3.
Qed.

Lemma decoration_groups_witness :
  Z.of_nat (length (fst (LuxuryTree.photos (fun _ => 0.5) 0%nat)))
  = LuxuryTree.PHOTO_COUNT.
Proof.
  refine (proj1 (proj2 (proj2
            (decoration_groups (fun _ => 0.5) 0%nat _)))).
  intros k. lra.
Defined.

(** ** Dust dynamics *)

Section DustDynamics.

Import AmbientSystem.

Lemma rotation_keeps_radial (x z a : R) :
  (x * cos a - z * sin a) * (x * cos a - z * sin a)
  + (x * sin a + z * cos a) * (x * sin a + z * cos a)
  = x * x + z * z.
Proof.
  pose proof (sin2_cos2 a) as H. unfold Rsqr in H.
  replace ((x * cos a - z * sin a) * (x * cos a - z * sin a)
           + (x * sin a + z * cos a) * (x * sin a + z * cos a))
    with ((x * x + z * z) * (sin a * sin a + cos a * cos a)) by ring.
  rewrite H. ring.
Qed.

Lemma radial_scaled (k : R) (p : Vector3) (y : R) :
  radial (mkVector3 (k * vx p) y (k * vz p)) = Rabs k * radial p.
Proof.
  unfold radial. cbn [vx vz].
  replace (k * vx p * (k * vx p) + k * vz p * (k * vz p))
    with (k² * (vx p * vx p + vz p * vz p)) by (unfold Rsqr; ring).
  rewrite sqrt_mult_alt by apply Rle_0_sqr.
  now rewrite sqrt_Rsqr_abs.
Qed.

Lemma dust_drift_radial (delta time speed phase : R) (p : Vector3) :
  radial (dust_drift delta time speed phase p) = radial p.
Proof.
  unfold dust_drift, radial. cbv zeta. cbn [vx vy vz].
  now rewrite rotation_keeps_radial.
Qed.

(** X6. The drift part of the dust update turns the particle about the
    vertical axis: the distance from that axis is unchanged, and the
    height moves by at most 0.01. *)
Theorem dust_drift_is_rotation :
  forall (delta time speed phase : R) (p : Vector3),
    radial (dust_drift delta time speed phase p) = radial p
    /\ Rabs (vy (dust_drift delta time speed phase p) - vy p) <= 0.01.
Proof.
  intros delta time speed phase p. split.
  - apply dust_drift_radial.
  - unfold dust_drift. cbv zeta. cbn [vy].
    pose proof (SIN_bound (time + phase)) as [Hlo Hhi].
    apply Rabs_le. lra.
Qed.

Lemma dust_particle_forced (treeState : TreeState) (delta time speed phase : R)
    (p : Vector3) :
  0.1 < radius p ->
  let r := radius p in
  let k := 1 + (targetR treeState - r) * 0.5 * delta / r in
  let q := dust_drift delta time speed phase p in
  fst (dust_particle treeState delta time speed phase p)
  = mkVector3 (k * vx q)
              (vy q + vy q / r * ((targetR treeState - r) * 0.5 * delta) * 0.1)
              (k * vz q).
Proof.
  intros Hr r k q. subst r k q.
  unfold dust_particle, dust_drift, radius in *. cbv zeta. cbn [vx vy vz].
  destruct (Rlt_dec 0.1 _) as [_|Hn]; [|contradiction].
  cbn [fst].
  set (r := sqrt _) in *.
  assert (r <> 0) by lra.
  unfold targetR.
  destruct (TreeState_eqb treeState FORMED); f_equal; field; assumption.
Qed.

Lemma targetR_values :
  targetR FORMED = 6 /\ targetR CHAOS = 14.
Proof. unfold targetR. cbn [TreeState_eqb]. split; lra. Qed.

(** X7. When the radius [r] of a dust particle exceeds 0.1, the force step
    scales the drifted horizontal position by
    [k = 1 + (targetR - r) * 0.5 * delta / r], with [targetR] 6 when
    FORMED and 14 when CHAOS.  For a frame time [0 < delta <= 2] the factor
    is positive, above 1 exactly when [r < targetR] and below 1 exactly
    when [r > targetR]: the spring pushes the particle away from the axis
    inside the target radius and pulls it in outside; at [r = targetR] the
    update is the drift alone. *)
Theorem dust_spring_direction :
  forall (treeState : TreeState) (delta time speed phase : R) (p : Vector3),
    0.1 < radius p -> 0 < delta <= 2 ->
    let r := radius p in
    let k := 1 + (targetR treeState - r) * 0.5 * delta / r in
    let out := fst (dust_particle treeState delta time speed phase p) in
    radial out = k * radial p
    /\ 0 < k
    /\ (r < targetR treeState <-> 1 < k)
    /\ (targetR treeState < r <-> k < 1)
    /\ (r = targetR treeState ->
          out = dust_drift delta time speed phase p).
Proof.
  intros treeState delta time speed phase p Hr Hd r k out.
  pose proof (dust_particle_forced treeState delta time speed phase p Hr) as E.
  cbv zeta in E. fold r in E. fold k in E. fold out in E.
  assert (Ht : 0 < targetR treeState)
    by (destruct targetR_values; destruct treeState; lra).
  fold r in Hr.
  assert (Hk : k = 1 + (targetR treeState - r) * (0.5 * delta * / r))
    by (subst k; field; lra).
  assert (Hi : 0 < / r) by (apply Rinv_0_lt_compat; lra).
  assert (Hm : 0 < 0.5 * delta * / r) by (apply Rmult_lt_0_compat; lra).
  assert (Hone : r * / r = 1) by (field; lra).
  assert (Hpos : 0 < k).
  { rewrite Hk.
    assert (0 < targetR treeState * (0.5 * delta * / r))
      by (apply Rmult_lt_0_compat; lra).
    assert (r * (0.5 * delta * / r) = 0.5 * delta) by (field; lra).
    nra. }
  split.
  - rewrite E, radial_scaled, (Rabs_pos_eq k) by lra.
    now rewrite dust_drift_radial.
  - split; [exact Hpos|]. rewrite Hk. split; [|split].
    + split; intros H; nra.
    + split; intros H; nra.
    + intros Heq. rewrite E. subst k.
      replace (targetR treeState - r) with 0 by lra.
      unfold dust_drift. cbv zeta. cbn [vx vy vz]. f_equal; field; lra.
Qed.

Lemma dust_spring_direction_witness :
  0 < 1 + (targetR FORMED - radius (mkVector3 3 0 4)) * 0.5 * 0.016
          / radius (mkVector3 3 0 4).
Proof.
  assert (R5 : radius (mkVector3 3 0 4) = 5).
  { unfold radius. cbn [vx vy vz].
    replace (3 * 3 + 0 * 0 + 4 * 4) with (5 * 5) by ring.
    apply sqrt_square. lra. }
  refine (proj1 (proj2 (dust_spring_direction FORMED 0.016 1 0.2 0
                          (mkVector3 3 0 4) _ _))).
  - rewrite R5. lra.
  - lra.
Defined.

End DustDynamics.

(** ** Camera zoom *)

Section CameraZoom.

Import Experience.

Lemma Rgtb_true (x y : R) : Rgtb x y = true <-> x > y.
Proof. unfold Rgtb. destruct (Rgt_dec x y); split; intros; (lra || discriminate || reflexivity). Qed.

Lemma Rltb_true (x y : R) : Rltb x y = true <-> x < y.
Proof. unfold Rltb. destruct (Rlt_dec x y); split; intros; (lra || discriminate || reflexivity). Qed.

Lemma Rgtb_false (x y : R) : Rgtb x y = false <-> x <= y.
Proof. unfold Rgtb. destruct (Rgt_dec x y); split; intros; (lra || discriminate || reflexivity). Qed.

Lemma Rltb_false (x y : R) : Rltb x y = false <-> y <= x.
Proof. unfold Rltb. destruct (Rlt_dec x y); split; intros; (lra || discriminate || reflexivity). Qed.

Lemma lerp_to_origin (pos : Vector3) (alpha : R) :
  Vector3_lerp pos (mkVector3 0 0 0) alpha
  = mkVector3 ((1 - alpha) * vx pos) ((1 - alpha) * vy pos) ((1 - alpha) * vz pos).
Proof. unfold Vector3_lerp. cbn [vx vy vz]. f_equal; ring. Qed.

Lemma vlength_scaled (k : R) (p : Vector3) :
  vlength (mkVector3 (k * vx p) (k * vy p) (k * vz p)) = Rabs k * vlength p.
Proof.
  unfold vlength. cbn [vx vy vz].
  replace (k * vx p * (k * vx p) + k * vy p * (k * vy p) + k * vz p * (k * vz p))
    with (k² * (vx p * vx p + vy p * vy p + vz p * vz p)) by (unfold Rsqr; ring).
  rewrite sqrt_mult_alt by apply Rle_0_sqr.
  now rewrite sqrt_Rsqr_abs.
Qed.

Lemma vlength_nonneg (p : Vector3) : 0 <= vlength p.
Proof. apply sqrt_pos. Qed.

(** The three ways a zoom step can go. *)
Lemma zoom_step_cases (zoomVel delta : R) (pos : Vector3) :
  (zoom_step zoomVel delta (Some pos) = Some pos
   /\ (Rabs zoomVel <= 0.001
       \/ (0 < zoomVel /\ vlength pos <= 5)
       \/ (zoomVel < 0 /\ 20 <= vlength pos)))
  \/ (zoom_step zoomVel delta (Some pos)
      = Some (Vector3_lerp pos (mkVector3 0 0 0) (zoomVel * delta * 5))
      /\ Rabs zoomVel > 0.001
      /\ ((5 < vlength pos /\ 0 < zoomVel) \/ (vlength pos < 20 /\ zoomVel < 0))).
Proof.
  unfold zoom_step.
  destruct (Rgtb (Rabs zoomVel) 0.001) eqn:Ea.
  - apply Rgtb_true in Ea.
    destruct (Rgtb (vlength pos) 5) eqn:E1, (Rgtb zoomVel 0) eqn:E2,
             (Rltb (vlength pos) 20) eqn:E3, (Rltb zoomVel 0) eqn:E4;
      cbn [andb orb];
      rewrite ?Rgtb_true, ?Rgtb_false, ?Rltb_true, ?Rltb_false in *;
      try (right; split; [reflexivity|]; split; [lra|]; lra);
      try (left; split; [reflexivity|]);
      try (unfold Rabs in Ea; destruct (Rcase_abs zoomVel); lra).
  - apply Rgtb_false in Ea. left. auto.
Qed.


(** X9. With the zoom velocities the gesture layer writes (0.05, -0.05 or
    0) and frame times between 0 and [dmax <= 4], a camera whose distance
    from the origin lies in [[5 * (1 - dmax/4), 20 * (1 + dmax/4)]] stays
    in that band; zooming in never increases the distance and zooming out
    never decreases it. *)
Theorem zoom_step_band :
  forall (zoomVel delta dmax : R) (pos : Vector3),
    zoomVel = 0.05 \/ zoomVel = - 0.05 \/ zoomVel = 0 ->
    0 <= delta <= dmax -> dmax <= 4 ->
    let lo := 5 * (1 - dmax / 4) in
    let hi := 20 * (1 + dmax / 4) in
    exists pos', zoom_step zoomVel delta (Some pos) = Some pos'
      /\ (lo <= vlength pos <= hi -> lo <= vlength pos' <= hi)
      /\ (zoomVel = 0.05 -> vlength pos' <= vlength pos)
      /\ (zoomVel = - 0.05 -> vlength pos <= vlength pos')
      /\ (zoomVel = 0 -> pos' = pos).
Proof.
  intros zoomVel delta dmax pos Hv Hd Hm lo hi.
  pose proof (vlength_nonneg pos) as H0.
  destruct (zoom_step_cases zoomVel delta pos)
    as [[E _]|(E & Ha & Hc)].
  - exists pos. rewrite E. repeat split; auto; lra.
  - rewrite E, lerp_to_origin. eexists. split; [reflexivity|].
    rewrite vlength_scaled.
    destruct Hv as [ -> | [ -> | -> ] ].
    + replace (1 - 0.05 * delta * 5) with (1 - delta / 4) by lra.
      rewrite Rabs_pos_eq by lra.
      destruct Hc as [[H5 _]|[_ Hneg]]; [|lra].
      subst lo hi. repeat split; intros; try lra; nra.
    + replace (1 - - 0.05 * delta * 5) with (1 + delta / 4) by lra.
      rewrite Rabs_pos_eq by lra.
      destruct Hc as [[_ Hpos]|[H20 _]]; [lra|].
      subst lo hi. repeat split; intros; try lra; nra.
    + exfalso. rewrite Rabs_R0 in Ha. lra.
Qed.

Lemma zoom_step_band_witness :
  exists pos', zoom_step 0.05 0.016 (Some (mkVector3 0 0 10)) = Some pos'
    /\ vlength pos' <= vlength (mkVector3 0 0 10).
Proof.
  destruct (zoom_step_band 0.05 0.016 1 (mkVector3 0 0 10)
              (or_introl eq_refl) ltac:(lra) ltac:(lra))
    as (pos' & E & _ & Hin & _).
  exists pos'. split; [exact E|]. apply Hin. reflexivity.
Defined.

End CameraZoom.

(** ** The focus visual *)

Section FocusVisual.

Import LuxuryTree.

(** X17. While a photo is focused, one frame moves the focus visual's
    scale and position towards 3.5 and (0, 1.5, 11) by the linear factor
    [delta * 4]: the remaining gap is multiplied by [1 - 4 * delta] (the
    height also gets the wobble [sin(time) * 0.005]).  So the gap shrinks
    for frame times up to 0.5, closes exactly at 0.25, and grows for frame
    times above 0.5; with no photo focused the visual is left alone. *)
Theorem focus_mesh_gap :
  forall (time delta : R) (k : Z) (m : Object3D),
    exists m', focus_mesh_update time delta (Some k) (Some m) = Some m'
      /\ oscale m' - 3.5 = (1 - 4 * delta) * (oscale m - 3.5)
      /\ vx (position m') = (1 - 4 * delta) * vx (position m)
      /\ vy (position m') - 1.5
         = (1 - 4 * delta) * (vy (position m) - 1.5) + sin time * 0.005
      /\ vz (position m') - 11 = (1 - 4 * delta) * (vz (position m) - 11)
      /\ (0 <= delta <= 0.5 -> Rabs (oscale m' - 3.5) <= Rabs (oscale m - 3.5))
      /\ (delta = 0.25 -> oscale m' = 3.5)
      /\ (0.5 < delta -> oscale m <> 3.5 ->
            Rabs (oscale m - 3.5) < Rabs (oscale m' - 3.5))
      /\ focus_mesh_update time delta None (Some m) = Some m.
Proof.
  intros time delta k m. eexists. split; [reflexivity|].
  cbn [oscale position setScalar set_position lookAt updateMatrix
       Vector3_lerp vx vy vz].
  assert (G : oscale m + (3.5 - oscale m) * (delta * 4) - 3.5
              = (1 - 4 * delta) * (oscale m - 3.5)) by ring.
  rewrite G.
  split; [reflexivity|]. split; [ring|]. split; [ring|]. split; [ring|].
  split; [|split; [|split]].
  - intros Hd. rewrite Rabs_mult.
    assert (Rabs (1 - 4 * delta) <= 1) by (apply Rabs_le; lra).
    pose proof (Rabs_pos (oscale m - 3.5)). nra.
  - intros ->. lra.
  - intros Hd Hne. rewrite Rabs_mult.
    assert (1 < Rabs (1 - 4 * delta)).
    { rewrite Rabs_left by lra. lra. }
    assert (0 < Rabs (oscale m - 3.5)) by (apply Rabs_pos_lt; lra).
    nra.
  - reflexivity.
Qed.

Lemma focus_mesh_gap_witness :
  exists m', focus_mesh_update 0 0.016 (Some 3%Z) (Some sample_mesh) = Some m'
    /\ Rabs (oscale m' - 3.5) <= Rabs (oscale sample_mesh - 3.5).
Proof.
  destruct (focus_mesh_gap 0 0.016 3 sample_mesh)
    as (m' & E & _ & _ & _ & _ & Hs & _).
  exists m'. split; [exact E|]. apply Hs. lra.
Defined.

End FocusVisual.

(** ** Gesture layer: velocities and pinch state *)

Section GestureSignals.

Import HandController.

Lemma process_hand_zoom (s : State) (h : Hand) :
  let y := ly (landmarks h 0%nat) in
  zoomVelocity (signal (process_hand s h))
  = (if Rlt_dec y 0.3 then 0.05 else if Rgt_dec y 0.7 then - 0.05 else 0).
Proof. reflexivity. Qed.

Lemma pinch_logic_rotation (lm : Landmarks) (t : R) (s : State) :
  rotationVelocity (signal (pinch_logic lm t s))
  = (if Rlt_dec (pinchDist lm) pinchThreshold
     then (lx (lm 0%nat) - 0.5) * 0.1 else 0).
Proof.
  unfold pinch_logic. destruct (Rlt_dec _ _); reflexivity.
Qed.

Lemma process_hand_rotation (s : State) (h : Hand) :
  rotationVelocity (signal (process_hand s h))
  = (if Rlt_dec (pinchDist (landmarks h)) pinchThreshold
     then (lx (landmarks h 0%nat) - 0.5) * 0.1 else 0).
Proof.
  unfold process_hand, zoom_logic.
  cbn [signal set_zoomVelocity rotationVelocity].
  apply pinch_logic_rotation.
Qed.

Lemma predict_snoc (hs : list Hand) (h : Hand) (s : State) :
  predict (hs ++ [h]) s = process_hand (fold_left process_hand hs s) h.
Proof.
  unfold predict. destruct (hs ++ [h]) as [|x l] eqn:E; [now destruct hs|].
  rewrite <- E, fold_left_app. reflexivity.
Qed.

(** X10. After a frame with a hand, the zoom velocity is 0.05 exactly when
    the wrist of the last hand processed is above the top band
    ([y < 0.3]), -0.05 exactly when it is below the bottom band
    ([y > 0.7]) and 0 in between; after any frame, with or without hands,
    it is one of these three values. *)
Theorem wrist_height_to_zoom :
  forall (s : State) (hs : list Hand) (h : Hand),
    let y := ly (landmarks h 0%nat) in
    let z := zoomVelocity (signal (predict (hs ++ [h]) s)) in
    (z = 0.05 <-> y < 0.3)
    /\ (z = - 0.05 <-> y > 0.7)
    /\ (z = 0 <-> 0.3 <= y <= 0.7)
    /\ (forall f, let z' := zoomVelocity (signal (predict f s)) in
                  z' = 0.05 \/ z' = - 0.05 \/ z' = 0).
Proof.
  intros s hs h y z. subst z. rewrite predict_snoc, process_hand_zoom.
  cbv zeta. fold y.
  split; [|split; [|split]].
  - destruct (Rlt_dec y 0.3); [|destruct (Rgt_dec y 0.7)]; split; intros; lra.
  - destruct (Rlt_dec y 0.3); [|destruct (Rgt_dec y 0.7)]; split; intros; lra.
  - destruct (Rlt_dec y 0.3); [|destruct (Rgt_dec y 0.7)]; split; intros; lra.
  - intros f. destruct f as [|x l] using rev_ind.
    + cbn. auto.
    + rewrite predict_snoc, process_hand_zoom. cbv zeta.
      destruct (Rlt_dec _ 0.3); [|destruct (Rgt_dec _ 0.7)]; auto.
Qed.

Lemma wrist_height_to_zoom_witness :
  zoomVelocity (signal (predict [mkHand closed_hand 0] initial_state)) = 0.
Proof.
  apply (proj1 (proj2 (proj2
           (wrist_height_to_zoom initial_state [] (mkHand closed_hand 0))))).
  cbn. lra.
Defined.

(** X11. After a frame with a hand, the rotation velocity is
    [(wrist.x - 0.5) * 0.1] while the last hand processed is pinching and
    0 otherwise; for a wrist inside the image ([0 <= x <= 1]) its size is
    at most 0.05. *)
Theorem pinch_drag_rotation :
  forall (s : State) (hs : list Hand) (h : Hand),
    let x := lx (landmarks h 0%nat) in
    let v := rotationVelocity (signal (predict (hs ++ [h]) s)) in
    (pinching h -> v = (x - 0.5) * 0.1)
    /\ (~ pinching h -> v = 0)
    /\ (0 <= x <= 1 -> Rabs v <= 0.05).
Proof.
  intros s hs h x v. subst v. rewrite predict_snoc, process_hand_rotation.
  fold x. unfold pinching.
  destruct (Rlt_dec _ _) as [Hp|Hn].
  - split; [reflexivity|]. split; [contradiction|].
    intros Hx. apply Rabs_le. lra.
  - split; [contradiction|]. split; [reflexivity|].
    intros _. rewrite Rabs_R0. lra.
Qed.

Lemma pinch_drag_rotation_witness :
  rotationVelocity
    (signal (predict [mkHand open_hand 0] initial_state)) = 0.
Proof.
  exact (proj1 (proj2 (pinch_drag_rotation initial_state []
                         (mkHand open_hand 0)))
           (open_hand_not_pinching 0)).
Defined.

(** *** Invariants of the pinch state *)

Lemma process_hand_count (s : State) (h : Hand) :
  (pinchCount (refs s) <= 1)%nat ->
  (pinchCount (refs (process_hand s h)) <= 1)%nat.
Proof.
  intros Hc. unfold process_hand, zoom_logic, pinch_logic, pinch_start.
  cbn [refs signal log set_targetMode].
  destruct (Rlt_dec (pinchDist _) _); [|cbn; exact Hc].
  destruct (isPinching (refs s)); [cbn; exact Hc|].
  destruct (Rlt_dec _ 500).
  - destruct (Nat.eqb_spec (S (pinchCount (refs s))) 2); cbn; lia.
  - cbn. lia.
Qed.

Lemma fold_hands_count (hs : list Hand) (s : State) :
  (pinchCount (refs s) <= 1)%nat ->
  (pinchCount (refs (fold_left process_hand hs s)) <= 1)%nat.
Proof.
  revert s. induction hs as [|h hs IH]; intros s Hc; cbn [fold_left]; [exact Hc|].
  apply IH, process_hand_count, Hc.
Qed.

Lemma predict_count (f : list Hand) (s : State) :
  (pinchCount (refs s) <= 1)%nat ->
  (pinchCount (refs (predict f s)) <= 1)%nat.
Proof.
  destruct f as [|h hs]; [cbn; auto|]. apply fold_hands_count.
Qed.

(** X12. At the end of every frame [pinchCount] is 0 or 1: starting from
    a count of at most 1 (the initial state has 0), no sequence of frames
    leaves a larger count behind. *)
Theorem pinch_count_bounded :
  forall (frames : list (list Hand)) (s : State),
    (pinchCount (refs s) <= 1)%nat ->
    (pinchCount (refs (run frames s)) <= 1)%nat.
Proof.
  induction frames as [|f fs IH]; intros s Hc; cbn [run]; [exact Hc|].
  apply IH, predict_count, Hc.
Qed.

Lemma pinch_count_bounded_witness :
  (pinchCount (refs (run [[mkHand closed_hand 1000]; []; [mkHand open_hand 1100]]
                         initial_state)) <= 1)%nat.
Proof.
  apply pinch_count_bounded. cbn. lia.
Defined.

Lemma process_hand_flag (s : State) (h : Hand) :
  (triggerFocus (signal s) = true ->
   triggerFocus (signal (process_hand s h)) = true)
  /\ (triggerFocus (signal (process_hand s h)) = true ->
      triggerFocus (signal s) = true
      \/ (trigger_count s < trigger_count (process_hand s h))%nat)
  /\ (trigger_count s <= trigger_count (process_hand s h))%nat.
Proof.
  unfold process_hand, zoom_logic, pinch_logic, pinch_start, trigger_count.
  cbn [refs signal log set_targetMode triggerFocus].
  destruct (Rlt_dec (pinchDist _) _); [|cbn; auto].
  destruct (isPinching (refs s)); [cbn; auto|].
  destruct (Nat.eqb _ 2);
    cbn [signal log triggerFocus set_rotationVelocity set_triggerFocus];
    rewrite ?filter_app, ?length_app; cbn [filter is_trigger length];
    (split; [auto|split; [|lia]]).
  - intros _. right. lia.
  - intros H. left. exact H.
Qed.

Lemma fold_hands_flag (hs : list Hand) (s : State) :
  (triggerFocus (signal s) = true ->
   triggerFocus (signal (fold_left process_hand hs s)) = true)
  /\ (triggerFocus (signal (fold_left process_hand hs s)) = true ->
      triggerFocus (signal s) = true
      \/ (trigger_count s < trigger_count (fold_left process_hand hs s))%nat)
  /\ (trigger_count s <= trigger_count (fold_left process_hand hs s))%nat.
Proof.
  revert s. induction hs as [|h hs IH]; intros s; cbn [fold_left].
  - split; [auto|split; [auto|lia]].
  - destruct (IH (process_hand s h)) as (A & B & C).
    destruct (process_hand_flag s h) as (A' & B' & C').
    split; [auto|]. split; [|lia].
    intros H. destruct (B H) as [H1|H1]; [|right; lia].
    destruct (B' H1) as [H2|H2]; [left; exact H2|right; lia].
Qed.

Lemma predict_flag (f : list Hand) (s : State) :
  (triggerFocus (signal s) = true ->
   triggerFocus (signal (predict f s)) = true)
  /\ (triggerFocus (signal (predict f s)) = true ->
      triggerFocus (signal s) = true
      \/ (trigger_count s < trigger_count (predict f s))%nat)
  /\ (trigger_count s <= trigger_count (predict f s))%nat.
Proof.
  destruct f as [|h hs]; [|apply fold_hands_flag].
  unfold trigger_count. cbn. split; [auto|split; [auto|lia]].
Qed.

(** X13. The gesture layer never clears [triggerFocus]: once true it stays
    true through any frames; and it becomes true only through a double
    pinch, that is, only when the assignment [triggerFocus = true] was
    executed in one of the frames. *)
Theorem producer_never_clears_trigger :
  forall (frames : list (list Hand)) (s : State),
    (triggerFocus (signal s) = true ->
     triggerFocus (signal (run frames s)) = true)
    /\ (triggerFocus (signal s) = false ->
        triggerFocus (signal (run frames s)) = true ->
        (trigger_count s < trigger_count (run frames s))%nat)
    /\ (trigger_count s <= trigger_count (run frames s))%nat.
Proof.
  induction frames as [|f fs IH]; intros s; cbn [run].
  - split; [auto|]. split; [congruence|lia].
  - destruct (IH (predict f s)) as (A & B & C).
    destruct (predict_flag f s) as (A' & B' & C').
    split; [auto|]. split; [|lia].
    intros Hf Ht.
    destruct (triggerFocus (signal (predict f s))) eqn:E.
    + destruct (B' eq_refl) as [H|H]; [congruence|lia].
    + specialize (B eq_refl Ht). lia.
Qed.

Lemma producer_never_clears_trigger_witness :
  triggerFocus
    (signal (run [[mkHand open_hand 0]; []]
                 (mkState initial_refs (mkInteractionRef 0 0 true None) [])))
  = true.
Proof.
  apply (proj1 (producer_never_clears_trigger _ _)). reflexivity.
Defined.

End GestureSignals.

Section TwoHands.

Import HandController.

Lemma release_hand_state (s : State) (h : Hand) :
  ~ pinching h ->
  let s' := process_hand s h in
  log s' = log s
  /\ isPinching (refs s') = false
  /\ lastPinchTime (refs s') = lastPinchTime (refs s)
  /\ pinchCount (refs s') = pinchCount (refs s)
  /\ triggerFocus (signal s') = triggerFocus (signal s).
Proof.
  intros Hn. unfold pinching in Hn.
  unfold process_hand, zoom_logic, pinch_logic.
  cbn [refs signal log set_targetMode].
  destruct (Rlt_dec (pinchDist _) _); [contradiction|]. cbn. auto.
Qed.

Lemma start_hand_state (s : State) (h : Hand) :
  pinching h -> isPinching (refs s) = false ->
  let count := if Rlt_dec (now h - lastPinchTime (refs s)) 500
               then S (pinchCount (refs s)) else 1%nat in
  let s' := process_hand s h in
  lastPinchTime (refs s') = now h
  /\ (count = 2%nat ->
        log s' = log s ++ [Pinch_started 2; Focus_triggered]
        /\ pinchCount (refs s') = 0%nat
        /\ triggerFocus (signal s') = true)
  /\ (count <> 2%nat ->
        log s' = log s ++ [Pinch_started count]
        /\ pinchCount (refs s') = count
        /\ triggerFocus (signal s') = triggerFocus (signal s)).
Proof.
  intros Hp Hn. exact (predict_pinch_start h s Hp Hn).
Qed.

(** Two frames in which one hand pinches and another does not, the
    pinching hand processed before ([true]) or after ([false]) the other. *)
Lemma pinch_beside_open_hand (s : State) (a1 b1 a2 b2 : Hand) (first : bool) :
  pinching a1 -> pinching a2 -> ~ pinching b1 -> ~ pinching b2 ->
  pinchCount (refs s) = 0%nat \/ 500 <= now a1 - lastPinchTime (refs s) ->
  now a2 - now a1 < 500 ->
  (first = true -> isPinching (refs s) = false) ->
  let f1 := if first then [a1; b1] else [b1; a1] in
  let f2 := if first then [a2; b2] else [b2; a2] in
  let s' := run [f1; f2] s in
  log s' = log s ++ [Pinch_started 1; Pinch_started 2; Focus_triggered]
  /\ triggerFocus (signal s') = true.
Proof.
  intros Pa1 Pa2 Nb1 Nb2 Hrest Hgap Hfirst f1 f2 s'.
  (* first pinch start *)
  assert (One : forall t, isPinching (refs t) = false ->
            lastPinchTime (refs t) = lastPinchTime (refs s) ->
            pinchCount (refs t) = pinchCount (refs s) ->
            lastPinchTime (refs (process_hand t a1)) = now a1
            /\ pinchCount (refs (process_hand t a1)) = 1%nat
            /\ log (process_hand t a1) = log t ++ [Pinch_started 1]).
  { intros t Ht Hl Hc.
    destruct (start_hand_state t a1 Pa1 Ht) as (T & _ & N).
    cbv zeta in T, N. rewrite Hl, Hc in N.
    assert (C1 : (if Rlt_dec (now a1 - lastPinchTime (refs s)) 500
                  then S (pinchCount (refs s)) else 1%nat) = 1%nat).
    { destruct (Rlt_dec _ 500) as [Hlt|_]; [|reflexivity].
      destruct Hrest as [->|Hge]; [reflexivity|lra]. }
    rewrite C1 in N. destruct (N ltac:(lia)) as (L & P & _). auto. }
  (* second pinch start *)
  assert (Two : forall t, isPinching (refs t) = false ->
            lastPinchTime (refs t) = now a1 ->
            pinchCount (refs t) = 1%nat ->
            log (process_hand t a2) = log t ++ [Pinch_started 2; Focus_triggered]
            /\ triggerFocus (signal (process_hand t a2)) = true).
  { intros t Ht Hl Hc.
    destruct (start_hand_state t a2 Pa2 Ht) as (_ & Y & _).
    cbv zeta in Y. rewrite Hl, Hc in Y.
    destruct (Rlt_dec (now a2 - now a1) 500) as [_|C]; [|contradiction].
    destruct (Y eq_refl) as (L & _ & F). auto. }
  subst s' f1 f2. destruct first; cbn [run predict fold_left].
  - destruct (One s (Hfirst eq_refl) eq_refl eq_refl) as (T1 & C1 & L1).
    destruct (release_hand_state (process_hand s a1) b1 Nb1)
      as (Lb & Ib & Tb & Cb & _).
    cbv zeta in Lb, Ib, Tb, Cb.
    set (t1 := process_hand (process_hand s a1) b1) in *.
    destruct (Two t1 Ib ltac:(congruence) ltac:(congruence)) as (L2 & F2).
    destruct (release_hand_state (process_hand t1 a2) b2 Nb2)
      as (Lc & _ & _ & _ & Fc).
    cbv zeta in Lc, Fc. rewrite Lc, Fc, L2, F2, Lb, L1, <- app_assoc.
    auto.
  - destruct (release_hand_state s b1 Nb1) as (Lb & Ib & Tb & Cb & _).
    cbv zeta in Lb, Ib, Tb, Cb.
    destruct (One (process_hand s b1) Ib Tb Cb) as (T1 & C1 & L1).
    set (t1 := process_hand (process_hand s b1) a1) in *.
    destruct (release_hand_state t1 b2 Nb2) as (Lc & Ic & Tc & Cc & _).
    cbv zeta in Lc, Ic, Tc, Cc.
    destruct (Two (process_hand t1 b2) Ic ltac:(congruence) ltac:(congruence))
      as (L2 & F2).
    rewrite L2, F2, Lc, L1, Lb, <- app_assoc. auto.
Qed.

(** X14. The pinch state is shared by all hands of a frame.  With one
    hand held in a pinch and another hand not pinching in the same
    frames, the non-pinching hand resets [isPinching] every frame, so the
    held pinch counts as a fresh pinch start in each frame: two such
    frames less than 500ms apart set [triggerFocus], in whichever order
    the two hands are processed. *)
Theorem held_pinch_beside_open_hand_triggers :
  forall (s : State) (a1 b1 a2 b2 : Hand),
    pinching a1 -> pinching a2 -> ~ pinching b1 -> ~ pinching b2 ->
    pinchCount (refs s) = 0%nat \/ 500 <= now a1 - lastPinchTime (refs s) ->
    isPinching (refs s) = false ->
    now a2 - now a1 < 500 ->
    let s1 := run [[a1; b1]; [a2; b2]] s in
    let s2 := run [[b1; a1]; [b2; a2]] s in
    (triggerFocus (signal s1) = true
     /\ trigger_count s1 = S (trigger_count s))
    /\ (triggerFocus (signal s2) = true
        /\ trigger_count s2 = S (trigger_count s)).
Proof.
  intros s a1 b1 a2 b2 Pa1 Pa2 Nb1 Nb2 Hrest Hn Hgap s1 s2.
  destruct (pinch_beside_open_hand s a1 b1 a2 b2 true
              Pa1 Pa2 Nb1 Nb2 Hrest Hgap (fun _ => Hn)) as [L1 F1].
  destruct (pinch_beside_open_hand s a1 b1 a2 b2 false
              Pa1 Pa2 Nb1 Nb2 Hrest Hgap ltac:(discriminate)) as [L2 F2].
  cbv zeta in L1, F1, L2, F2. fold s1 in L1, F1. fold s2 in L2, F2.
  split; (split; [assumption|]).
  - rewrite (trigger_count_app s1 _ _ L1). unfold trigger_count. cbn. lia.
  - rewrite (trigger_count_app s2 _ _ L2). unfold trigger_count. cbn. lia.
Qed.

Lemma held_pinch_beside_open_hand_triggers_witness :
  triggerFocus
    (signal (run [[mkHand closed_hand 1000; mkHand open_hand 1000];
                  [mkHand closed_hand 1016; mkHand open_hand 1016]]
                 initial_state)) = true.
Proof.
  refine (proj1 (proj1 (held_pinch_beside_open_hand_triggers initial_state
            (mkHand closed_hand 1000) (mkHand open_hand 1000)
            (mkHand closed_hand 1016) (mkHand open_hand 1016)
            (closed_hand_pinching _) (closed_hand_pinching _)
            (open_hand_not_pinching _) (open_hand_not_pinching _)
            (or_introl eq_refl) eq_refl _))).
  cbn. lra.
Defined.

End TwoHands.

(** ** Mode poll and toggle button *)

Section ModeControl.

Import App.

Lemma poll_reaches_target (ts m : TreeState) (ir : InteractionRef) :
  targetMode ir = Some m -> poll ts ir = m.
Proof.
  unfold poll. intros ->. destruct m, ts; reflexivity.
Qed.

(** X15. A poll always leaves the committed mode equal to a non-null
    [targetMode], and polling again with [targetMode] unchanged commits
    nothing: the poll is idempotent. *)
Theorem poll_idempotent :
  forall (ts : TreeState) (ir : InteractionRef),
    (forall m, targetMode ir = Some m -> poll ts ir = m)
    /\ poll (poll ts ir) ir = poll ts ir
    /\ poll_commits (poll ts ir) ir = false.
Proof.
  intros ts ir. split; [intros m; apply poll_reaches_target|].
  unfold poll, poll_commits.
  destruct (targetMode ir) as [m|] eqn:E; [|auto].
  destruct m, ts; cbn; auto.
Qed.

Lemma poll_idempotent_witness :
  poll FORMED (mkInteractionRef 0 0 false (Some CHAOS)) = CHAOS.
Proof.
  exact (proj1 (poll_idempotent FORMED (mkInteractionRef 0 0 false (Some CHAOS)))
           CHAOS eq_refl).
Defined.

(** X16. The toggle button switches between the two modes and pressing
    it twice restores the mode; but while [targetMode] still holds the
    mode that was committed before the press, the next poll commits that
    mode again and so undoes the press. *)
Theorem toggle_undone_by_stale_target :
  forall (ts : TreeState) (ir : InteractionRef),
    toggleState ts <> ts
    /\ toggleState (toggleState ts) = ts
    /\ (targetMode ir = Some ts ->
        poll_commits (toggleState ts) ir = true
        /\ poll (toggleState ts) ir = ts)
    /\ (targetMode ir = None -> poll (toggleState ts) ir = toggleState ts).
Proof.
  intros ts ir. split; [destruct ts; discriminate|].
  split; [destruct ts; reflexivity|]. split.
  - intros H. unfold poll, poll_commits. rewrite H. destruct ts; auto.
  - intros H. unfold poll. now rewrite H.
Qed.

Lemma toggle_undone_by_stale_target_witness :
  poll (toggleState FORMED) (mkInteractionRef 0 0 false (Some FORMED)) = FORMED.
Proof.
  exact (proj2 (proj1 (proj2 (proj2
           (toggle_undone_by_stale_target FORMED
              (mkInteractionRef 0 0 false (Some FORMED)))))
           eq_refl)).
Defined.

End ModeControl.

(** ** Focus toggling *)

Section FocusToggling.

Import LuxuryTree.

Lemma assert_then_render (u : R) (s : FocusState) :
  let s' := focus_run [Assert_trigger; Render u] s in
  is_focused s' = negb (is_focused s)
  /\ triggerFocus (shared s') = false
  /\ toggle_count [Assert_trigger; Render u] s = 1%nat.
Proof.
  destruct (assert_keeps_focus s) as (Fa & Ta & Na).
  destruct (render_consumes u (focus_event Assert_trigger s) Ta) as (Fc & Tc & Nc).
  cbv zeta in Fc, Tc. cbn [focus_run toggle_count].
  rewrite Na, Nc, Fc, Fa, Tc. auto.
Qed.

Lemma pulses_run (us : list R) :
  forall s,
    is_focused (focus_run (pulses us) s)
    = xorb (is_focused s) (Nat.odd (length us))
    /\ toggle_count (pulses us) s = length us.
Proof.
  induction us as [|u us IH]; intros s.
  - cbn. now rewrite xorb_false_r.
  - change (pulses (u :: us)) with ([Assert_trigger; Render u] ++ pulses us).
    rewrite focus_run_app, toggle_count_app.
    destruct (assert_then_render u s) as (F & _ & C). cbv zeta in F.
    destruct (IH (focus_run [Assert_trigger; Render u] s)) as [IHf IHc].
    rewrite IHf, IHc, C, F. cbn [length]. rewrite Nat.odd_succ, <- Nat.negb_odd.
    split; [|lia].
    destruct (is_focused s), (Nat.odd (length us)); reflexivity.
Qed.
(** X21. Focus is a toggle, not a stack: after [n] triggers, each consumed
    by a render tick before the next arrives, the focus state has flipped
    [n] times, so it differs from the start exactly when [n] is odd; two
    triggers bring it back. *)
Theorem focus_toggle_parity :
  forall (us : list R) (s : FocusState),
    is_focused (focus_run (pulses us) s)
    = xorb (is_focused s) (Nat.odd (length us))
    /\ toggle_count (pulses us) s = length us
    /\ (forall u v, is_focused (focus_run (pulses [u; v]) s) = is_focused s).
Proof.
  intros us s. destruct (pulses_run us s) as [F C].
  split; [exact F|]. split; [exact C|].
  intros u v. destruct (pulses_run [u; v] s) as [F2 _].
  rewrite F2. cbn. now rewrite xorb_false_r.
Qed.

Lemma asserts_coalesce (n : nat) (s : FocusState) :
  let s' := focus_run (repeat Assert_trigger (S n)) s in
  is_focused s' = is_focused s
  /\ triggerFocus (shared s') = true
  /\ toggle_count (repeat Assert_trigger (S n)) s = 0%nat.
Proof.
  revert s. induction n as [|n IH]; intros s.
  - destruct (assert_keeps_focus s) as (F & T & N).
    cbn [repeat focus_run toggle_count]. rewrite N. auto.
  - destruct (assert_keeps_focus s) as (F & T & N).
    destruct (IH (focus_event Assert_trigger s)) as (F' & T' & N').
    cbv zeta in F', T'.
    change (repeat Assert_trigger (S (S n)))
      with (Assert_trigger :: repeat Assert_trigger (S n)).
    cbn [focus_run toggle_count]. rewrite N, N', F', F, T'. auto.
Qed.

(** X22. Assertions of [triggerFocus] that arrive between two render
    ticks coalesce: however many times the flag is set before the next
    tick, that tick toggles the focus once and leaves the flag cleared. *)
Theorem assertions_coalesce :
  forall (n : nat) (u : R) (s : FocusState),
    let tr := repeat Assert_trigger (S n) ++ [Render u] in
    toggle_count tr s = 1%nat
    /\ is_focused (focus_run tr s) = negb (is_focused s)
    /\ triggerFocus (shared (focus_run tr s)) = false.
Proof.
  intros n u s tr. subst tr.
  destruct (asserts_coalesce n s) as (F & T & N). cbv zeta in F, T.
  destruct (render_consumes u _ T) as (Fc & Tc & Nc). cbv zeta in Fc, Tc.
  rewrite toggle_count_app, focus_run_app, N.
  cbn [focus_run toggle_count]. rewrite Nc, Fc, Tc, F. auto.
Qed.

End FocusToggling.

(** ** Photos, frames and hover outline: what each instance receives *)

Section PhotoInstances.

Import LuxuryTree.

Lemma photo_body_shown (easeT : R) (f h : option Z) (d : Object3D)
    (p : ParticleData) (i : nat) :
  id_eqb (Some (Z.of_nat i)) f = false ->
  let out := photo_body easeT f h d p i in
  snd out = photo_matrix easeT (id_eqb (Some (Z.of_nat i)) h) p
  /\ matrix (fst out) = snd out.
Proof.
  intros Hf. unfold photo_body. rewrite Hf. cbv zeta.
  cbn [fst snd matrix updateMatrix setScalar rotateY lookAt set_position
       position orientation oscale].
  unfold photo_matrix. cbv zeta.
  destruct h as [k|]; cbn [id_eqb negb andb]; [|split; reflexivity].
  rewrite andb_true_r. destruct (Z.of_nat i =? k)%Z; split; reflexivity.
Qed.

Lemma photo_body_focused (easeT : R) (f h : option Z) (d : Object3D)
    (p : ParticleData) (i : nat) :
  id_eqb (Some (Z.of_nat i)) f = true ->
  let out := photo_body easeT f h d p i in
  snd out = matrix d /\ matrix (fst out) = matrix d.
Proof.
  intros Hf. unfold photo_body. rewrite Hf. cbn. auto.
Qed.

Lemma photos_from_length (easeT : R) (f h : option Z) (ps : list ParticleData) :
  forall d i, length (snd (photos_from easeT f h d i ps)) = length ps.
Proof.
  induction ps as [|p ps IH]; intros d i; cbn [photos_from]; [reflexivity|].
  destruct (photo_body easeT f h d p i) as [d1 m].
  specialize (IH d1 (S i)).
  destruct (photos_from easeT f h d1 (S i) ps) as [d2 ms].
  cbn [snd length] in *. now rewrite IH.
Qed.

(** What instance [i0 + j] receives, given the dummy's matrix on entry. *)
Lemma photos_from_nth (easeT : R) (f h : option Z) (ps : list ParticleData) :
  forall d i0 j p,
    nth_error ps j = Some p ->
    exists m, nth_error (snd (photos_from easeT f h d i0 ps)) j = Some m
      /\ (id_eqb (Some (Z.of_nat (i0 + j))) f = false ->
            m = photo_matrix easeT (id_eqb (Some (Z.of_nat (i0 + j))) h) p)
      /\ (id_eqb (Some (Z.of_nat (i0 + j))) f = true ->
            match j with
            | O => m = matrix d
            | S j' =>
                exists q, nth_error ps j' = Some q
                  /\ (id_eqb (Some (Z.of_nat (i0 + j'))) f = false ->
                        m = photo_matrix easeT
                              (id_eqb (Some (Z.of_nat (i0 + j'))) h) q)
            end).
Proof.
  induction ps as [|p0 ps IH]; intros d i0 j p Hj; [destruct j; discriminate|].
  cbn [photos_from].
  destruct (photo_body easeT f h d p0 i0) as [d1 m0] eqn:E0.
  destruct (photos_from easeT f h d1 (S i0) ps) as [d2 ms] eqn:E1.
  cbn [snd]. destruct j as [|j].
  - injection Hj as <-. exists m0. split; [reflexivity|].
    rewrite Nat.add_0_r. split; intros Hf.
    + pose proof (photo_body_shown easeT f h d p0 i0 Hf) as [S _].
      rewrite E0 in S. exact S.
    + pose proof (photo_body_focused easeT f h d p0 i0 Hf) as [S _].
      rewrite E0 in S. exact S.
  - cbn [nth_error] in Hj |- *.
    destruct (IH d1 (S i0) j p Hj) as (m & Hm & Hshown & Hfocus).
    rewrite E1 in Hm. cbn [snd] in Hm.
    exists m. split; [exact Hm|].
    replace (i0 + S j)%nat with (S i0 + j)%nat by lia.
    split; [exact Hshown|]. intros Hf. specialize (Hfocus Hf).
    destruct j as [|j'].
    + exists p0. split; [reflexivity|]. rewrite Nat.add_0_r. intros Hf0.
      pose proof (photo_body_shown easeT f h d p0 i0 Hf0) as [S M].
      rewrite E0 in S, M. cbn [fst snd] in S, M. rewrite Hfocus, M. exact S.
    + destruct Hfocus as (q & Hq & Hm').
      exists q. split; [exact Hq|].
      replace (i0 + S j')%nat with (S i0 + j')%nat by lia. exact Hm'.
Qed.
Lemma id_eqb_false_iff (i : nat) (f : option Z) :
  id_eqb (Some (Z.of_nat i)) f = false <-> f <> Some (Z.of_nat i).
Proof.
  destruct f as [k|]; cbn [id_eqb].
  - rewrite Z.eqb_neq. split; congruence.
  - split; [discriminate|reflexivity].
Qed.

Lemma id_eqb_true_iff (i : nat) (f : option Z) :
  id_eqb (Some (Z.of_nat i)) f = true <-> f = Some (Z.of_nat i).
Proof.
  destruct f as [k|]; cbn [id_eqb].
  - rewrite Z.eqb_eq. split; congruence.
  - split; discriminate.
Qed.

(** X18. The photo loop writes one matrix per photo, and a photo that is
    not the focused one receives a matrix built from its own data alone:
    its interpolated position, the orientation facing away from the axis,
    and its scale, times 1.15 when it is the hovered one.  Nothing of the
    shared dummy's earlier state leaks into it. *)
Theorem photo_instances :
  forall (easeT : R) (focusId hoveredId : option Z) (dummy : Object3D)
         (photos : list ParticleData),
    let out := snd (photos_update easeT focusId hoveredId dummy photos) in
    length out = length photos
    /\ (forall j p,
          nth_error photos j = Some p ->
          focusId <> Some (Z.of_nat j) ->
          nth_error out j
          = Some (photo_matrix easeT (id_eqb (Some (Z.of_nat j)) hoveredId) p)).
Proof.
  intros easeT f h d photos out. subst out. unfold photos_update.
  split; [apply photos_from_length|].
  intros j p Hj Hf.
  destruct (photos_from_nth easeT f h photos d 0 j p Hj) as (m & Hm & Hshown & _).
  cbn [plus] in Hshown. rewrite Hm. f_equal.
  apply Hshown. now apply id_eqb_false_iff.
Qed.

Lemma photo_instances_witness :
  nth_error (snd (photos_update 1 (Some 5%Z) None sample_mesh sample_photos)) 3
  = Some (photo_matrix 1 (id_eqb (Some (Z.of_nat 3)) None) sample_photo).
Proof.
  apply (proj2 (photo_instances 1 (Some 5%Z) None sample_mesh sample_photos)).
  - reflexivity.
  - discriminate.
Defined.

(** X19. The focused photo is not hidden by the loop.  Its branch sets the
    dummy's scale to 0 but does not recompose the dummy's matrix, so the
    instance receives the matrix the dummy still holds: for the focused
    index [j + 1] that is the matrix just written for photo [j], with
    that photo's position and scale; for the focused index 0 it is the
    matrix the dummy had on entry to the loop. *)
Theorem focused_photo_gets_stale_matrix :
  forall (easeT : R) (hoveredId : option Z) (dummy : Object3D)
         (photos : list ParticleData),
    (forall j p q,
       nth_error photos j = Some q ->
       nth_error photos (S j) = Some p ->
       let out := snd (photos_update easeT (Some (Z.of_nat (S j))) hoveredId
                                     dummy photos) in
       nth_error out (S j) = nth_error out j
       /\ nth_error out (S j)
          = Some (photo_matrix easeT (id_eqb (Some (Z.of_nat j)) hoveredId) q))
    /\ (forall p,
          nth_error photos 0 = Some p ->
          nth_error (snd (photos_update easeT (Some 0%Z) hoveredId dummy photos)) 0
          = Some (matrix dummy)).
Proof.
  intros easeT h d photos. split.
  - intros j p q Hq Hp out. subst out. unfold photos_update.
    assert (Hne : id_eqb (Some (Z.of_nat j)) (Some (Z.of_nat (S j))) = false).
    { apply id_eqb_false_iff. intros [= E]. lia. }
    destruct (photos_from_nth easeT (Some (Z.of_nat (S j))) h photos d 0 j q Hq)
      as (mq & Hmq & Hshown & _).
    destruct (photos_from_nth easeT (Some (Z.of_nat (S j))) h photos d 0 (S j) p Hp)
      as (mp & Hmp & _ & Hfocus).
    cbn [plus] in Hshown, Hfocus.
    specialize (Hshown Hne).
    destruct (Hfocus (proj2 (id_eqb_true_iff (S j) _) eq_refl))
      as (q' & Hq' & Hm').
    rewrite Hq in Hq'. injection Hq' as <-.
    specialize (Hm' Hne).
    rewrite Hmp, Hmq, Hm', Hshown. auto.
  - intros p Hp. unfold photos_update.
    destruct (photos_from_nth easeT (Some 0%Z) h photos d 0 0 p Hp)
      as (m & Hm & _ & Hfocus).
    rewrite Hm. f_equal. apply Hfocus. reflexivity.
Qed.

Lemma focused_photo_gets_stale_matrix_witness :
  nth_error (snd (photos_update 1 (Some 1%Z) None sample_mesh sample_photos)) 1
  = Some (photo_matrix 1 false sample_photo).
Proof.
  exact (proj2 (proj1 (focused_photo_gets_stale_matrix 1 None sample_mesh
                         sample_photos)
                  0%nat sample_photo sample_photo eq_refl eq_refl)).
Defined.

Lemma photo_at_in_range (photos : list ParticleData) (k : Z) :
  Z.of_nat (length photos) = PHOTO_COUNT -> ~ out_of_range k ->
  exists p, photo_at photos k = Some p.
Proof.
  unfold out_of_range, photo_at. intros Hn Hk.
  destruct (Z.ltb_spec k 0); [lia|].
  destruct (nth_error photos (Z.to_nat k)) as [p|] eqn:E; [eauto|].
  apply nth_error_None in E. lia.
Qed.

(** X20. For a hovered id inside [[0, PHOTO_COUNT)] the hover outline
    step never throws: when the hovered photo is not the focused one the
    mounted outline is shown at that photo's interpolated position with
    1.25 times its scale, and when it is the focused one the outline is
    hidden. *)
Theorem hover_in_range :
  forall (easeT : R) (focusId : option Z) (h : Z)
         (photos : list ParticleData) (hm : Object3D),
    Z.of_nat (length photos) = PHOTO_COUNT ->
    ~ out_of_range h ->
    (forall hoverMesh,
       hover_update easeT focusId (Some h) photos hoverMesh <> TypeError)
    /\ (focusId = Some h ->
          hover_update easeT focusId (Some h) photos (Some hm)
          = Done (Some (set_visible false hm)))
    /\ (focusId <> Some h ->
          exists p m,
            photo_at photos h = Some p
            /\ hover_update easeT focusId (Some h) photos (Some hm)
               = Done (Some m)
            /\ visible m = true
            /\ oscale m = scale p * 1.25
            /\ position m
               = lerpVectors (scatterPosition p) (treePosition p) easeT).
Proof.
  intros easeT f h photos hm Hn Hh.
  destruct (photo_at_in_range photos h Hn Hh) as [p Hp].
  split; [|split].
  - intros [m|]; unfold hover_update; [|discriminate].
    destruct (negb (id_eqb (Some h) f)); [|discriminate].
    rewrite Hp. discriminate.
  - intros ->. unfold hover_update. cbn [id_eqb].
    now rewrite Z.eqb_refl.
  - intros Hne. unfold hover_update.
    rewrite (id_neq_false f h Hne). cbn [negb]. rewrite Hp.
    exists p. eexists. split; [reflexivity|]. split; [reflexivity|].
    cbn. auto.
Qed.

Lemma hover_in_range_witness :
  hover_update 1 None (Some 3%Z) sample_photos (Some sample_mesh) <> TypeError.
Proof.
  apply (proj1 (hover_in_range 1 None 3 sample_photos sample_mesh eq_refl
                  ltac:(unfold out_of_range, PHOTO_COUNT; lia))).
Defined.

End PhotoInstances.

(** ** Transition: frame-rate independence and the eased blend *)

Lemma transition_step_add (treeState : TreeState) (a b p : R) :
  transition_step treeState (a + b) p
  = transition_step treeState a (transition_step treeState b p).
Proof.
  unfold transition_step, MathUtils.damp.
  assert (E : forall lambda, exp (- lambda * (a + b))
                             = exp (- lambda * a) * exp (- lambda * b)).
  { intros lambda. rewrite <- exp_plus. f_equal. ring. }
  rewrite E. ring.
Qed.

Lemma transition_step_zero (treeState : TreeState) (p : R) :
  transition_step treeState 0 p = p.
Proof.
  unfold transition_step, MathUtils.damp.
  rewrite Rmult_0_r, exp_0. ring.
Qed.

Lemma progress_after_one_step (treeState : TreeState) (delta p0 : R) (n : nat) :
  progress_after treeState delta p0 n
  = transition_step treeState (INR n * delta) p0.
Proof.
  induction n as [|n IH].
  - cbn [progress_after INR]. now rewrite Rmult_0_l, transition_step_zero.
  - cbn [progress_after]. rewrite IH, S_INR, <- transition_step_add.
    f_equal. ring.
Qed.

(** X23. The damped update does not depend on how time is cut into
    frames: a step of [a + b] equals a step of [b] followed by a step of
    [a], and [n] frames of [delta] equal one step of [n * delta].  The
    target is a fixed point, so a tree mounted with progress at its target
    stays there. *)
Theorem transition_frame_rate_independent :
  forall (treeState : TreeState) (a b delta p : R) (n : nat),
    transition_step treeState (a + b) p
    = transition_step treeState a (transition_step treeState b p)
    /\ progress_after treeState delta p n
       = transition_step treeState (INR n * delta) p
    /\ progress_after treeState delta (target_of treeState) n
       = target_of treeState.
Proof.
  intros ts a b delta p n.
  split; [apply transition_step_add|].
  split; [apply progress_after_one_step|].
  rewrite progress_after_one_step. unfold transition_step, MathUtils.damp. ring.
Qed.

Lemma easeT_unit (t : R) : 0 <= t <= 1 -> 0 <= easeT t <= 1.
Proof.
  intros [H0 H1]. unfold easeT. split.
  - apply Rmult_le_pos; [nra|lra].
  - assert (0 <= (1 - t) * (1 - t) * (1 + 2 * t))
      by (apply Rmult_le_pos; [nra|lra]).
    lra.
Qed.

Lemma lerp_between (a b e : R) :
  0 <= e <= 1 -> Rmin a b <= a + (b - a) * e <= Rmax a b.
Proof.
  intros He. unfold Rmin, Rmax. destruct (Rle_dec a b); nra.
Qed.

(** X24. In every frame the eased blend factor [easeT(progress)] lies in
    [[0,1]], so each coordinate of an interpolated position lies between
    the particle's scatter and tree coordinates; at progress 0 the
    interpolated position is the scatter position and at progress 1 the
    tree position; and the easing is symmetric,
    [easeT(1 - t) = 1 - easeT(t)]. *)
Theorem eased_blend_on_segment :
  forall (treeState : TreeState) (delta p0 : R) (n : nat) (a b : Vector3),
    0 < delta -> 0 <= p0 <= 1 ->
    let e := easeT (progress_after treeState delta p0 n) in
    let c := lerpVectors a b e in
    0 <= e <= 1
    /\ Rmin (vx a) (vx b) <= vx c <= Rmax (vx a) (vx b)
    /\ Rmin (vy a) (vy b) <= vy c <= Rmax (vy a) (vy b)
    /\ Rmin (vz a) (vz b) <= vz c <= Rmax (vz a) (vz b)
    /\ lerpVectors a b (easeT 0) = a
    /\ lerpVectors a b (easeT 1) = b
    /\ (forall t, easeT (1 - t) = 1 - easeT t).
Proof.
  intros ts delta p0 n a b Hd Hp e c.
  assert (He : 0 <= e <= 1)
    by (apply easeT_unit, progress_unit; assumption).
  split; [exact He|].
  subst c. unfold lerpVectors. cbn [vx vy vz].
  split; [now apply lerp_between|].
  split; [now apply lerp_between|].
  split; [now apply lerp_between|].
  split; [|split].
  - unfold easeT. destruct a as [ax ay az]. cbn [vx vy vz]. f_equal; ring.
  - unfold easeT. destruct b as [bx by_ bz]. cbn [vx vy vz]. f_equal; ring.
  - intros t. unfold easeT. ring.
Qed.

Lemma eased_blend_on_segment_witness :
  0 <= easeT (progress_after FORMED 0.016 0 10) <= 1.
Proof.
  exact (proj1 (eased_blend_on_segment FORMED 0.016 0 10
                  (mkVector3 0 0 0) (mkVector3 1 1 1)
                  ltac:(lra) ltac:(lra))).
Defined.

(** ** Instanced loops with a shared dummy *)

Section InstancedLoops.

Import LuxuryTree.

Lemma forEach_instance_nth
    (body : Object3D -> ParticleData -> Object3D * Matrix4)
    (ps : list ParticleData) :
  forall d,
    length (snd (forEach_instance body d ps)) = length ps
    /\ (forall j p, nth_error ps j = Some p ->
          exists d', nth_error (snd (forEach_instance body d ps)) j
                     = Some (snd (body d' p))).
Proof.
  induction ps as [|p0 ps IH]; intros d; cbn [forEach_instance].
  - split; [reflexivity|]. intros [|j] p; discriminate.
  - destruct (body d p0) as [d1 m0] eqn:E0.
    destruct (IH d1) as [L Each].
    destruct (forEach_instance body d1 ps) as [d2 ms].
    cbn [snd length] in *. split; [now rewrite L|].
    intros [|j] p Hj.
    + injection Hj as <-. exists d. now rewrite E0.
    + cbn [nth_error] in Hj |- *. now apply Each.
Qed.

(** X25. The ball loop writes one matrix per ball; a ball's matrix has its
    own scale, no rotation, the interpolated [x] and [z], and a height
    within 0.02 of the interpolated height, whatever the shared dummy held
    before. *)
Theorem ball_instances :
  forall (easeT time : R) (dummy : Object3D) (balls : list ParticleData),
    let out := snd (forEach_instance (ball_body easeT time) dummy balls) in
    length out = length balls
    /\ (forall j p,
          nth_error balls j = Some p ->
          let c := lerpVectors (scatterPosition p) (treePosition p) easeT in
          exists m, nth_error out j = Some m
            /\ m_scale m = scale p
            /\ m_orientation m = Euler_set 0 0 0
            /\ vx (m_position m) = vx c
            /\ vz (m_position m) = vz c
            /\ Rabs (vy (m_position m) - vy c) <= 0.02).
Proof.
  intros easeT time d balls out. subst out.
  destruct (forEach_instance_nth (ball_body easeT time) balls d) as [L Each].
  split; [exact L|]. intros j p Hj c.
  destruct (Each j p Hj) as [d' Hm]. rewrite Hm. eexists. split; [reflexivity|].
  unfold ball_body. cbv zeta.
  cbn [snd matrix updateMatrix rotation_set setScalar set_position
       position orientation oscale m_scale m_orientation m_position vx vy vz].
  repeat split; try reflexivity.
  pose proof (SIN_bound (time * 1.5 + phase p)) as [Hlo Hhi].
  apply Rabs_le. subst c. lra.
Qed.

Lemma ball_instances_witness :
  exists m,
    nth_error (snd (forEach_instance (ball_body 1 0) sample_mesh sample_photos)) 2
    = Some m
    /\ m_scale m = scale sample_photo.
Proof.
  destruct (proj2 (ball_instances 1 0 sample_mesh sample_photos)
              2%nat sample_photo eq_refl) as (m & Hm & Hs & _).
  exists m. split; assumption.
Defined.

Import ArixTreeFrame.

(** X26. An ArixTree ornament's matrix has no rotation, the interpolated
    [x] and [z], a height within 0.05 of the interpolated height, and,
    for a non-negative base scale, a scale between 0.6 and 1 times it:
    the pulse never makes the ornament vanish or flip. *)
Theorem arix_ornament_instances :
  forall (easeT time : R) (dummy : Object3D) (ornaments : list ParticleData),
    let out := snd (forEach_instance (ornament_body easeT time) dummy ornaments) in
    length out = length ornaments
    /\ (forall j p,
          nth_error ornaments j = Some p ->
          let c := lerpVectors (scatterPosition p) (treePosition p) easeT in
          exists m, nth_error out j = Some m
            /\ m_orientation m = Euler_set 0 0 0
            /\ vx (m_position m) = vx c
            /\ vz (m_position m) = vz c
            /\ Rabs (vy (m_position m) - vy c) <= 0.05
            /\ (0 <= scale p -> 0.6 * scale p <= m_scale m <= scale p)).
Proof.
  intros easeT time d ornaments out. subst out.
  destruct (forEach_instance_nth (ornament_body easeT time) ornaments d)
    as [L Each].
  split; [exact L|]. intros j p Hj c.
  destruct (Each j p Hj) as [d' Hm]. rewrite Hm. eexists. split; [reflexivity|].
  unfold ornament_body. cbv zeta.
  cbn [snd matrix updateMatrix rotation_set setScalar set_position
       position orientation oscale m_scale m_orientation m_position vx vy vz].
  pose proof (SIN_bound (time * 2 + phase p)) as [Hlo Hhi].
  pose proof (SIN_bound (time * 3 + IZR (id p))) as [Hlo' Hhi'].
  repeat split; try reflexivity.
  - apply Rabs_le. subst c. lra.
  - nra.
  - nra.
Qed.

Lemma arix_ornament_instances_witness :
  exists m,
    nth_error (snd (forEach_instance (ornament_body 1 0) sample_mesh
                                     sample_photos)) 2 = Some m
    /\ 0.6 * scale sample_photo <= m_scale m <= scale sample_photo.
Proof.
  destruct (proj2 (arix_ornament_instances 1 0 sample_mesh sample_photos)
              2%nat sample_photo eq_refl) as (m & Hm & _ & _ & _ & _ & Hs).
  exists m. split; [exact Hm|]. apply Hs. cbn. lra.
Defined.

(** X27. An ArixTree dust mote's matrix has no rotation, every coordinate
    within 0.5 of the interpolated position, and, for a non-negative base
    scale, a twinkling scale between 0 and twice it: the scale reaches 0
    at the troughs but never goes negative. *)
Theorem arix_dust_instances :
  forall (easeT time : R) (dummy : Object3D) (dust : list ParticleData),
    let out := snd (forEach_instance (dust_body easeT time) dummy dust) in
    length out = length dust
    /\ (forall j p,
          nth_error dust j = Some p ->
          let c := lerpVectors (scatterPosition p) (treePosition p) easeT in
          exists m, nth_error out j = Some m
            /\ m_orientation m = Euler_set 0 0 0
            /\ Rabs (vx (m_position m) - vx c) <= 0.5
            /\ Rabs (vy (m_position m) - vy c) <= 0.5
            /\ Rabs (vz (m_position m) - vz c) <= 0.5
            /\ (0 <= scale p -> 0 <= m_scale m <= 2 * scale p)).
Proof.
  intros easeT time d dust out. subst out.
  destruct (forEach_instance_nth (dust_body easeT time) dust d) as [L Each].
  split; [exact L|]. intros j p Hj c.
  destruct (Each j p Hj) as [d' Hm]. rewrite Hm. eexists. split; [reflexivity|].
  unfold dust_body. cbv zeta.
  cbn [snd matrix updateMatrix rotation_set setScalar set_position
       position orientation oscale m_scale m_orientation m_position vx vy vz].
  pose proof (SIN_bound (time * 0.5 + phase p)) as [Hx Hx'].
  pose proof (COS_bound (time * 0.3 + phase p)) as [Hy Hy'].
  pose proof (SIN_bound (time * 0.4 + phase p * 2)) as [Hz Hz'].
  pose proof (SIN_bound (time * 10 + phase p)) as [Hs Hs'].
  subst c.
  repeat split; try reflexivity; try (apply Rabs_le; lra); nra.
Qed.

Lemma arix_dust_instances_witness :
  exists m,
    nth_error (snd (forEach_instance (dust_body 1 0) sample_mesh
                                     sample_photos)) 2 = Some m
    /\ 0 <= m_scale m <= 2 * scale sample_photo.
Proof.
  destruct (proj2 (arix_dust_instances 1 0 sample_mesh sample_photos)
              2%nat sample_photo eq_refl) as (m & Hm & _ & _ & _ & _ & Hs).
  exists m. split; [exact Hm|]. apply Hs. cbn. lra.
Defined.

End InstancedLoops.
